(** * STUBER_GO: stub server and WebSocket-to-TCP bridge

    A shallow embedding of the Go sources

      - the stub server (package [main]: the HTTP stubs and the TCP
        stubs), and
      - [Program/websocketbridge.go] (the relay),

    together with the properties the specification states about them.

    Conventions.
      - Go [int] is [Z]; no arithmetic here can overflow (lengths of
        buffers of at most 4096 bytes, configuration integers compared
        with them).
      - Go [[]byte] is [list byte]; a Go [string] is a Rocq [string]
        (a sequence of bytes); [string(b)] and [[]byte(s)] are
        [string_of_list_byte] and [list_byte_of_string].
      - A connection is modelled by the results its calls return (the
        script the peer and the network supply) and by the trace of calls
        the handler makes on it.  [log.Printf] calls are left out: they
        touch nothing the handlers read.
      - Functions of Go's standard library are written out where their
        behaviour on bytes is elementary ([encoding/hex], [strings.Split],
        [strings.Contains], [http.Header.Get]); [strings.EqualFold]
        (the case folding of Unicode), [json.Unmarshal] and
        [fmt.Sprintf "%v"] are parameters of the HTTP section.
      - An HTTP handler is modelled by the calls it makes on its
        [http.ResponseWriter], or by the panic of [WriteHeader] on a
        status outside 100..999 that ends it. *)

From Stdlib Require Import ZArith NArith List String Ascii Strings.Byte.
From Stdlib Require Import DecimalString Lia Bool.
From stdpp Require Import gmap strings.
Import ListNotations.

Set Warnings "-register-all".

Local Open Scope string_scope.
Local Open Scope Z_scope.

(* ===================================================================== *)
(** * encoding/hex *)
(* ===================================================================== *)

Module Hex.

(** [const hextable = "0123456789abcdef"] *)
Definition hextable : string := "0123456789abcdef".

(** [hextable[i]] for an index the encoder produces (0..15). *)
Definition hexDigit (i : N) : ascii :=
  match String.get (N.to_nat i) hextable with
  | Some c => c
  | None => "0"%char
  end.

(** [hex.EncodeToString]: two lower-case digits per byte,
    [hextable[v>>4]] then [hextable[v&0x0f]]. *)
Fixpoint EncodeToString (src : list byte) : string :=
  match src with
  | [] => EmptyString
  | v :: rest =>
      String (hexDigit (N.shiftr (Byte.to_N v) 4))
        (String (hexDigit (N.land (Byte.to_N v) 15))
           (EncodeToString rest))
  end.

(** The value of a hexadecimal digit; digits of either case are accepted. *)
Definition fromHexChar (c : ascii) : option N :=
  let n := N_of_ascii c in
  if ((48 <=? n) && (n <=? 57))%N then Some (n - 48)%N
  else if ((97 <=? n) && (n <=? 102))%N then Some (n - 97 + 10)%N
  else if ((65 <=? n) && (n <=? 70))%N then Some (n - 65 + 10)%N
  else None.

(** [hex.ErrLength] and [hex.InvalidByteError]. *)
Inductive HexError : Type :=
| ErrLength
| InvalidByteError (b : ascii).

Definition byteOfN (n : N) : byte :=
  match Byte.of_N n with
  | Some b => b
  | None => x00
  end.

(** [hex.DecodeString]: the bytes decoded before the first error, and the
    error if any.  Pairs are decoded left to right; an invalid digit is
    reported before an odd length. *)
Fixpoint DecodeString (s : string) : list byte * option HexError :=
  match s with
  | EmptyString => ([], None)
  | String p EmptyString =>
      match fromHexChar p with
      | None => ([], Some (InvalidByteError p))
      | Some _ => ([], Some ErrLength)
      end
  | String p (String q rest) =>
      match fromHexChar p with
      | None => ([], Some (InvalidByteError p))
      | Some a =>
          match fromHexChar q with
          | None => ([], Some (InvalidByteError q))
          | Some b =>
              let '(bytes, err) := DecodeString rest in
              (byteOfN (N.lor (N.shiftl a 4) b) :: bytes, err)
          end
      end
  end.

(** A digit the encoder writes: 0-9 or a-f. *)
Definition isLowerHexDigit (c : ascii) : bool :=
  let n := N_of_ascii c in
  (((48 <=? n) && (n <=? 57)) || ((97 <=? n) && (n <=? 102)))%N.

(** The texts the encoder writes: digits 0-9 and a-f, in pairs. *)
Fixpoint encoded (s : string) : bool :=
  match s with
  | EmptyString => true
  | String _ EmptyString => false
  | String p (String q rest) => isLowerHexDigit p && isLowerHexDigit q && encoded rest
  end.

(** Digits of [%U]: ["0123456789ABCDEF"]. *)
Definition udigit (i : N) : ascii :=
  match String.get (N.to_nat i) "0123456789ABCDEF" with
  | Some c => c
  | None => "0"%char
  end.

(** [strconv.IsPrint] on a rune below 256. *)
Definition isPrintLatin1 (r : N) : bool :=
  (((32 <=? r) && (r <=? 126)) || ((161 <=? r) && (r <=? 255) && negb (r =? 173)))%N.

(** UTF-8 encoding of a rune below 256. *)
Definition utf8Latin1 (r : N) : string :=
  if (r <? 128)%N then String (ascii_of_N r) EmptyString
  else String (ascii_of_N (N.lor 192 (N.shiftr r 6)))
         (String (ascii_of_N (N.lor 128 (N.land r 63))) EmptyString).

(** [fmt.Sprintf("%#U", rune(b))] for a byte [b]: [U+00XX], followed by the
    quoted character when it is printable. *)
Definition fmtSharpU (b : ascii) : string :=
  let r := N_of_ascii b in
  "U+00" ++ String (udigit (N.shiftr r 4)) (String (udigit (N.land r 15)) EmptyString)
    ++ (if isPrintLatin1 r then " '" ++ utf8Latin1 r ++ "'" else "").

(** The [Error()] method of the two errors. *)
Definition Error (e : HexError) : string :=
  match e with
  | ErrLength => "encoding/hex: odd length hex string"
  | InvalidByteError b => "encoding/hex: invalid byte: " ++ fmtSharpU b
  end.

End Hex.

(** [%d] of [fmt]. *)
Definition itoa (n : Z) : string := NilZero.string_of_int (Z.to_int n).

(* ===================================================================== *)
(** * The TCP stub server *)
(* ===================================================================== *)

Module Tcp.

(** [type TCPStub struct] *)
Record TCPStub : Type := mkTCPStub {
  Name : string;
  Port : Z;
  ResponseMessage : string;
  ResponseHex : string;
  CloseAfter : bool;
  Delay : Z;
  ValidateRequest : bool;
  ExpectedHexPattern : string;
  ExpectedPrefix : string;
  MinLength : Z;
  MaxLength : Z;
  ErrorResponse : string;
  ErrorResponseHex : string
}.

(** [validateRequest]: the hex-character length of the request against the
    two bounds; the second component is the reason. *)
Definition validateRequest (data : list byte) (stub : TCPStub) : bool * string :=
  let hexData := Hex.EncodeToString data in
  let hexLength := Z.of_nat (String.length hexData) in
  if (MinLength stub >? 0) && (hexLength <? MinLength stub) then
    (false, "Request too short: " ++ itoa hexLength
              ++ " hex chars (min: " ++ itoa (MinLength stub) ++ ")")
  else if (MaxLength stub >? 0) && (hexLength >? MaxLength stub) then
    (false, "Request too long: " ++ itoa hexLength
              ++ " hex chars (max: " ++ itoa (MaxLength stub) ++ ")")
  else (true, "OK").

(** What one call of [reader.Read(buffer)] returns: [buffer[:n]] with a nil
    error, or an error (the handler drops whatever came with it). *)
Inductive ReadResult : Type :=
| ReadOk (data : list byte)
| ReadErr.

(** The calls a handler makes on its connection, in order. *)
Inductive ConnEvent : Type :=
| EvRead (r : ReadResult)
| EvSleep (ms : Z)
| EvWrite (data : list byte)
| EvClose.

(** What the peer and the network supply to one accepted connection: the
    results of the successive [Read] calls (past the end of the list the
    call blocks for ever: the handler sets no deadline), and whether the
    first [conn.Write] returns an error (the results of the later ones are
    discarded by the handler). *)
Record ConnEnv : Type := mkConnEnv {
  incoming : list ReadResult;
  writeErr : bool
}.


(** [if stub.Delay > 0 { time.Sleep(...) }] *)
Definition sleepFor (delay : Z) : list ConnEvent :=
  if delay >? 0 then [EvSleep delay] else [].

(** The response bytes of a stub (the block "Send stub response" of
    [handleConnection]): the
    decoded [ResponseHex] when it is not empty, [None] when it does not
    decode; the bytes of [ResponseMessage] otherwise. *)
Definition responseData (stub : TCPStub) : option (list byte) :=
  if negb (String.eqb (ResponseHex stub) "") then
    match Hex.DecodeString (ResponseHex stub) with
    | (bytes, None) => Some bytes
    | (_, Some _) => None
    end
  else Some (list_byte_of_string (ResponseMessage stub)).

(** The loop under [if !stub.CloseAfter]: every further read is answered
    with the same [responseData]; a read error leaves the loop, and the
    deferred [conn.Close()] runs. *)
Fixpoint keepAlive (responseData : list byte) (reads : list ReadResult)
  : list ConnEvent :=
  match reads with
  | [] => []
  | ReadErr :: _ => [EvRead ReadErr; EvClose]
  | ReadOk data :: rest =>
      EvRead (ReadOk data) :: EvWrite responseData :: keepAlive responseData rest
  end.

(** [handleConnection]: the trace of one accepted connection.  [EvClose] is
    the deferred [conn.Close()], run on every return. *)
Definition handleConnection (stub : TCPStub) (env : ConnEnv) : list ConnEvent :=
  match incoming env with
  | [] => []
  | ReadErr :: _ => [EvRead ReadErr; EvClose]
  | ReadOk data :: rest =>
      EvRead (ReadOk data) ::
      if ValidateRequest stub && negb (fst (validateRequest data stub)) then
        [EvClose]
      else
        sleepFor (Delay stub) ++
        match responseData stub with
        | None => [EvClose]
        | Some resp =>
            EvWrite resp ::
            if writeErr env then [EvClose]
            else if negb (CloseAfter stub) then keepAlive resp rest
            else [EvClose]
        end
  end.


(** The payloads of the [Write] calls of a trace, in order. *)
Fixpoint writesOf (t : list ConnEvent) : list (list byte) :=
  match t with
  | [] => []
  | EvWrite d :: t' => d :: writesOf t'
  | _ :: t' => writesOf t'
  end.

(** The number of [Read] calls of a trace. *)
Fixpoint readsOf (t : list ConnEvent) : nat :=
  match t with
  | [] => O
  | EvRead _ :: t' => S (readsOf t')
  | _ :: t' => readsOf t'
  end.

(** The handler returned: its last call is the deferred close. *)
Definition closed (t : list ConnEvent) : Prop := last t = Some EvClose.





(** Two stubs that differ at most in [ExpectedPrefix] and
    [ExpectedHexPattern]. *)
Definition sameButPrefixAndPattern (s1 s2 : TCPStub) : Prop :=
  Name s1 = Name s2 /\ Port s1 = Port s2 /\
  ResponseMessage s1 = ResponseMessage s2 /\ ResponseHex s1 = ResponseHex s2 /\
  CloseAfter s1 = CloseAfter s2 /\ Delay s1 = Delay s2 /\
  ValidateRequest s1 = ValidateRequest s2 /\
  MinLength s1 = MinLength s2 /\ MaxLength s1 = MaxLength s2 /\
  ErrorResponse s1 = ErrorResponse s2 /\ ErrorResponseHex s1 = ErrorResponseHex s2.

(** The rule of the specification's scenario: port 9000, response 0102,
    close after the response, lengths 4 to 8. *)
Definition scenarioStub : TCPStub :=
  {| Name := "scenario"; Port := 9000; ResponseMessage := ""; ResponseHex := "0102";
     CloseAfter := true; Delay := 0; ValidateRequest := true;
     ExpectedHexPattern := ""; ExpectedPrefix := "";
     MinLength := 4; MaxLength := 8; ErrorResponse := ""; ErrorResponseHex := "" |}.

(** The same rule, with the connection kept open. *)
Definition keepOpenStub : TCPStub :=
  {| Name := "keep-open"; Port := 9003; ResponseMessage := ""; ResponseHex := "0102";
     CloseAfter := false; Delay := 0; ValidateRequest := true;
     ExpectedHexPattern := ""; ExpectedPrefix := "";
     MinLength := 4; MaxLength := 8; ErrorResponse := ""; ErrorResponseHex := "" |}.

(** A rule whose upper bound is negative. *)
Definition negativeMaxStub : TCPStub :=
  {| Name := "negative-max"; Port := 9001; ResponseMessage := "OK"; ResponseHex := "";
     CloseAfter := true; Delay := 0; ValidateRequest := true;
     ExpectedHexPattern := ""; ExpectedPrefix := "";
     MinLength := 0; MaxLength := -1; ErrorResponse := ""; ErrorResponseHex := "" |}.

(** A rule whose [ResponseHex] is not hexadecimal. *)
Definition badHexStub : TCPStub :=
  {| Name := "bad-hex"; Port := 9002; ResponseMessage := ""; ResponseHex := "zz";
     CloseAfter := true; Delay := 0; ValidateRequest := true;
     ExpectedHexPattern := ""; ExpectedPrefix := "";
     MinLength := 4; MaxLength := 8; ErrorResponse := ""; ErrorResponseHex := "" |}.

(** One later exchange on a kept connection. *)
Definition exchange (payload : list byte) (data : list byte) : list ConnEvent :=
  [EvRead (ReadOk data); EvWrite payload].

End Tcp.

(* ===================================================================== *)
(** * The HTTP stub server *)
(* ===================================================================== *)

Module Http.

(** ** Library functions on strings *)

Definition isUpper (c : ascii) : bool :=
  ((65 <=? N_of_ascii c) && (N_of_ascii c <=? 90))%N.

Definition isLower (c : ascii) : bool :=
  ((97 <=? N_of_ascii c) && (N_of_ascii c <=? 122))%N.

Definition toLower (c : ascii) : ascii :=
  if isUpper c then ascii_of_N (N_of_ascii c + 32) else c.

Definition toUpper (c : ascii) : ascii :=
  if isLower c then ascii_of_N (N_of_ascii c - 32) else c.

(** [strings.Contains]: [substr] occurs in [s] at some offset. *)
Fixpoint Contains (s substr : string) : bool :=
  String.prefix substr s ||
  match s with
  | EmptyString => false
  | String _ s' => Contains s' substr
  end.

(** [strings.Split(s, sep)] for a one-byte separator: the fields between
    the separators, [field] being the one under construction. *)
Fixpoint splitFrom (sep : ascii) (s : string) (field : string) : list string :=
  match s with
  | EmptyString => [field]
  | String c s' =>
      if Ascii.eqb c sep then field :: splitFrom sep s' EmptyString
      else splitFrom sep s' (field ++ String c EmptyString)%string
  end.

Definition Split (s : string) (sep : ascii) : list string := splitFrom sep s EmptyString.

(** ** http.Header *)

(** The token characters of a header field name. *)
Definition validHeaderFieldByte (c : ascii) : bool :=
  let n := N_of_ascii c in
  (((48 <=? n) && (n <=? 57)) || isUpper c || isLower c
   || existsb (N.eqb n) [33; 35; 36; 37; 38; 39; 42; 43; 45; 46; 94; 95; 96; 124; 126])%N.

Fixpoint allValid (s : string) : bool :=
  match s with
  | EmptyString => true
  | String c s' => validHeaderFieldByte c && allValid s'
  end.

(** First letter and every letter after a dash in upper case, the others
    in lower case. *)
Fixpoint canonicalize (upper : bool) (s : string) : string :=
  match s with
  | EmptyString => EmptyString
  | String c s' =>
      let c' := if upper then toUpper c else toLower c in
      String c' (canonicalize (Ascii.eqb c' "-"%char) s')
  end.

(** [textproto.CanonicalMIMEHeaderKey]: a key that holds a byte outside the
    token characters is returned unchanged. *)
Definition CanonicalMIMEHeaderKey (s : string) : string :=
  if allValid s then canonicalize true s else s.

(** [Header.Get]: the first value of the canonical key, [""] when the key
    has no value. *)
Definition Get (h : gmap string (list string)) (key : string) : string :=
  match h !! CanonicalMIMEHeaderKey key with
  | Some (v :: _) => v
  | _ => EmptyString
  end.

(** ** Data *)

(** The dynamic values ([interface{}]) that [json.Unmarshal] and
    [yaml.Unmarshal] build: [nil], [bool], [float64] (a finite one, as
    mantissa and binary exponent), [int], [string], [[]interface{}] and
    [map[string]interface{}]. *)
Inductive Value : Type :=
| VNil
| VBool (b : bool)
| VFloat64 (mantissa exponent : Z)
| VInt (n : Z)
| VString (s : string)
| VSlice (l : list Value)
| VMap (m : gmap string Value).

(** [type HTTPResponse struct] *)
Module HTTPResponse.
Record t : Type := mk {
  Status : Z;
  Headers : gmap string string;
  Body : string;
  Delay : Z
}.
End HTTPResponse.

(** [type HTTPStub struct] *)
Module HTTPStub.
Record t : Type := mk {
  Name : string;
  Method : string;
  Path : string;
  Headers : gmap string string;
  BodyContains : string;
  BodyJSON : gmap string Value;
  Response : HTTPResponse.t
}.
End HTTPStub.

(** The fields of [*http.Request] the server reads: [r.Method],
    [r.URL.Path], [r.Header], and [r.Body] as what [io.ReadAll] returns on
    it ([None]: an error). *)
Module Request.
Record t : Type := mk {
  Method : string;
  Path : string;
  Header : gmap string (list string);
  Body : option string
}.
End Request.

(** The calls of the handler on its [http.ResponseWriter] when it runs to
    its end: the sleep before them, the headers given to [Header().Set],
    the status given to [WriteHeader] and the body given to [Write].  What
    the writer of [net/http] puts on the wire for these calls (the status
    line, an interim response for a status from 100 to 199 but 101, no body after 204
    and 304) is not described here. *)
Record Reply : Type := mkReply {
  replySleep : option Z;
  replyHeaders : gmap string string;
  replyStatus : Z;
  replyBody : string
}.

(** [checkWriteHeaderCode] of [net/http]: [WriteHeader] panics on a code
    below 100 or above 999, so also on the 0 of a stub that gives no
    status. *)
Definition validStatus (code : Z) : bool := (100 <=? code) && (code <=? 999).

(** How a run of the handler ends: it returns after [Write], or
    [WriteHeader] panics; then [Write] is never called, and the headers set
    before are never sent. *)
Inductive Outcome : Type :=
| Replied (reply : Reply)
| Panicked (slept : option Z) (headers : gmap string string) (code : Z).

Definition quote : string := String (ascii_of_N 34) EmptyString.

(** The body of the 404 reply: the JSON object with the one member
    [error], whose value is [No stub matched]. *)
Definition notFoundBody : string :=
  ("{" ++ quote ++ "error" ++ quote ++ ": " ++ quote ++ "No stub matched" ++ quote ++ "}")%string.

Definition StatusNotFound : Z := 404.

Definition notFound : Reply :=
  {| replySleep := None; replyHeaders := ∅;
     replyStatus := StatusNotFound; replyBody := notFoundBody |}.

(** The calls for a matched stub (the body of the [if s.matchRequest]
    branch of [ServeHTTP]), when [WriteHeader] returns. *)
Definition replyOf (stub : HTTPStub.t) : Reply :=
  let resp := HTTPStub.Response stub in
  {| replySleep := if HTTPResponse.Delay resp >? 0 then Some (HTTPResponse.Delay resp) else None;
     replyHeaders := HTTPResponse.Headers resp;
     replyStatus := HTTPResponse.Status resp;
     replyBody := HTTPResponse.Body resp |}.

(** The body of the [if s.matchRequest] branch of [ServeHTTP]: the sleep,
    the headers, [WriteHeader], which panics on a status that is not
    valid, then [Write]. *)
Definition respond (stub : HTTPStub.t) : Outcome :=
  let resp := HTTPStub.Response stub in
  if validStatus (HTTPResponse.Status resp) then Replied (replyOf stub)
  else Panicked (if HTTPResponse.Delay resp >? 0 then Some (HTTPResponse.Delay resp) else None)
                (HTTPResponse.Headers resp) (HTTPResponse.Status resp).

(** [m[key]] on a Go map: the zero value [nil] for a missing key. *)
Definition index (m : gmap string Value) (key : string) : Value :=
  match m !! key with
  | Some v => v
  | None => VNil
  end.

(** The loop of [jsonFieldMatches] over the keys: [None] is its
    [return false]. *)
Fixpoint walk (current : Value) (keys : list string) : option Value :=
  match keys with
  | [] => Some current
  | key :: rest =>
      match current with
      | VMap m => walk (index m key) rest
      | _ => None
      end
  end.

(** A member name of a dot-separated path: it holds no dot. *)
Definition dotFree (key : string) : Prop :=
  ~ In "."%char (list_ascii_of_string key).

(** The member names of a dot-separated path, as the specification words
    it: the path is these names, none of which holds a dot, written one
    after the other with a dot between two of them.  (The empty path is
    the one empty name.) *)
Definition namesOf_spec (path : string) (keys : list string) : Prop :=
  keys <> [] /\ Forall dotFree keys /\ path = String.concat "." keys.

(** The value found at a list of member names, as the specification words
    it: the value itself for no name; for a name that the object holds,
    what is found from that member with the names left; the null value for
    a last name that the object does not hold.  Nothing is found through a
    value that is not an object, nor below a member that the object does
    not hold. *)
Inductive valueAt_spec : Value -> list string -> Value -> Prop :=
| AtEnd (v : Value) : valueAt_spec v [] v
| AtMember (m : gmap string Value) (key : string) (child : Value)
    (rest : list string) (v : Value) :
    m !! key = Some child -> valueAt_spec child rest v ->
    valueAt_spec (VMap m) (key :: rest) v
| AtAbsent (m : gmap string Value) (key : string) :
    m !! key = None -> valueAt_spec (VMap m) [key] VNil.

Section WithLibrary.

(** [strings.EqualFold(s, t)]: equality under the simple case folding of
    Unicode. *)
Variable EqualFold : string -> string -> bool.

(** [json.Unmarshal(body, &requestJSON)] into a [map[string]interface{}]:
    [None] is an error. *)
Variable Unmarshal : string -> option (gmap string Value).

(** [fmt.Sprintf("%v", v)]. *)
Variable Sprintf_v : Value -> string.

(** [jsonFieldMatches] *)
Definition jsonFieldMatches (data : gmap string Value) (path : string)
    (expectedValue : Value) : bool :=
  match walk (VMap data) (Split path "."%char) with
  | None => false
  | Some current => String.eqb (Sprintf_v current) (Sprintf_v expectedValue)
  end.

(** The loop over [stub.Headers]. *)
Definition headersMatch (r : Request.t) (stub : HTTPStub.t) : bool :=
  forallb (fun kv => String.eqb (Get (Request.Header r) (fst kv)) (snd kv))
          (map_to_list (HTTPStub.Headers stub)).

(** The loop over [stub.BodyJSON]. *)
Definition fieldsMatch (requestJSON : gmap string Value) (stub : HTTPStub.t) : bool :=
  forallb (fun kv => jsonFieldMatches requestJSON (fst kv) (snd kv))
          (map_to_list (HTTPStub.BodyJSON stub)).

(** [matchRequest]; the request is returned with its body as the function
    leaves it ([r.Body] is replaced by a reader over the bytes read). *)
Definition matchRequest (r : Request.t) (stub : HTTPStub.t) : bool * Request.t :=
  if negb (EqualFold (HTTPStub.Method stub) (Request.Method r)) then (false, r)
  else if negb (String.eqb (HTTPStub.Path stub) (Request.Path r)) then (false, r)
  else if negb (headersMatch r stub) then (false, r)
  else if negb (String.eqb (HTTPStub.BodyContains stub) EmptyString)
          || (0 <? Z.of_nat (size (HTTPStub.BodyJSON stub))) then
    match Request.Body r with
    | None => (false, r)
    | Some bodyStr =>
        let r' := {| Request.Method := Request.Method r;
                     Request.Path := Request.Path r;
                     Request.Header := Request.Header r;
                     Request.Body := Some bodyStr |} in
        if negb (String.eqb (HTTPStub.BodyContains stub) EmptyString)
           && negb (Contains bodyStr (HTTPStub.BodyContains stub)) then (false, r')
        else if 0 <? Z.of_nat (size (HTTPStub.BodyJSON stub)) then
          match Unmarshal bodyStr with
          | None => (false, r')
          | Some requestJSON =>
              if fieldsMatch requestJSON stub then (true, r') else (false, r')
          end
        else (true, r')
    end
  else (true, r).

(** [ServeHTTP]: the stubs in the order of [s.stubs]. *)
Fixpoint ServeHTTP (stubs : list HTTPStub.t) (r : Request.t) : Outcome :=
  match stubs with
  | [] => Replied notFound
  | stub :: rest =>
      let '(matched, r') := matchRequest r stub in
      if matched then respond stub else ServeHTTP rest r'
  end.

(** The body conditions of a stub: nothing is asked, or the body can be
    read and holds the substring asked for, and parses to an object whose
    fields pass [jsonFieldMatches]. *)
Definition bodyMatches (stub : HTTPStub.t) (r : Request.t) : Prop :=
  (HTTPStub.BodyContains stub = EmptyString /\ HTTPStub.BodyJSON stub = ∅) \/
  exists bodyStr,
    Request.Body r = Some bodyStr /\
    (HTTPStub.BodyContains stub <> EmptyString ->
       Contains bodyStr (HTTPStub.BodyContains stub) = true) /\
    (HTTPStub.BodyJSON stub <> ∅ ->
       exists requestJSON,
         Unmarshal bodyStr = Some requestJSON /\
         forall key expected,
           HTTPStub.BodyJSON stub !! key = Some expected ->
           jsonFieldMatches requestJSON key expected = true).

(** A full match, with the header condition as the handler evaluates it:
    the value [Get] returns for the key is the value of the stub. *)
Definition fullMatch (stub : HTTPStub.t) (r : Request.t) : Prop :=
  EqualFold (HTTPStub.Method stub) (Request.Method r) = true /\
  HTTPStub.Path stub = Request.Path r /\
  (forall key value, HTTPStub.Headers stub !! key = Some value ->
     Get (Request.Header r) key = value) /\
  bodyMatches stub r.

(** A full match as the specification words it: every header of the stub
    is present in the request, with the value of the stub. *)
Definition fullMatch_spec (stub : HTTPStub.t) (r : Request.t) : Prop :=
  EqualFold (HTTPStub.Method stub) (Request.Method r) = true /\
  HTTPStub.Path stub = Request.Path r /\
  (forall key value, HTTPStub.Headers stub !! key = Some value ->
     exists others, Request.Header r !! CanonicalMIMEHeaderKey key = Some (value :: others)) /\
  bodyMatches stub r.

(** First match in declaration order, for a notion [matches] of match and
    an [answer] for a stub: the handler ends as the answer for the first
    stub that matches says, and with the 404 reply when no stub matches. *)
Definition firstMatchWins (matches : HTTPStub.t -> Request.t -> Prop)
    (answer : HTTPStub.t -> Outcome) (stubs : list HTTPStub.t) (r : Request.t) : Prop :=
  (exists before stub after,
      stubs = (before ++ stub :: after)%list /\
      Forall (fun s => ~ matches s r) before /\
      matches stub r /\
      ServeHTTP stubs r = answer stub) \/
  (Forall (fun s => ~ matches s r) stubs /\ ServeHTTP stubs r = Replied notFound).

(** First match as the specification words it: the match is
    [fullMatch_spec], and the answer for a stub is its response, whatever
    its status. *)
Definition firstMatchWins_spec (stubs : list HTTPStub.t) (r : Request.t) : Prop :=
  firstMatchWins fullMatch_spec (fun stub => Replied (replyOf stub)) stubs r.

End WithLibrary.

(** A stub that asks for the header [X-Token] with the empty value. *)
Definition tokenStub : HTTPStub.t :=
  {| HTTPStub.Name := "token"; HTTPStub.Method := "GET"; HTTPStub.Path := "/ping";
     HTTPStub.Headers := {[ "X-Token" := EmptyString ]};
     HTTPStub.BodyContains := EmptyString; HTTPStub.BodyJSON := ∅;
     HTTPStub.Response :=
       {| HTTPResponse.Status := 200; HTTPResponse.Headers := ∅;
          HTTPResponse.Body := "pong"; HTTPResponse.Delay := 0 |} |}.

(** A second stub for the same method and path, with no header asked. *)
Definition plainStub : HTTPStub.t :=
  {| HTTPStub.Name := "plain"; HTTPStub.Method := "get"; HTTPStub.Path := "/ping";
     HTTPStub.Headers := ∅;
     HTTPStub.BodyContains := EmptyString; HTTPStub.BodyJSON := ∅;
     HTTPStub.Response :=
       {| HTTPResponse.Status := 201; HTTPResponse.Headers := ∅;
          HTTPResponse.Body := "plain"; HTTPResponse.Delay := 0 |} |}.

(** A stub declared without a status: the field keeps the zero value. *)
Definition noStatusStub : HTTPStub.t :=
  {| HTTPStub.Name := "no-status"; HTTPStub.Method := "GET"; HTTPStub.Path := "/ping";
     HTTPStub.Headers := ∅;
     HTTPStub.BodyContains := EmptyString; HTTPStub.BodyJSON := ∅;
     HTTPStub.Response :=
       {| HTTPResponse.Status := 0; HTTPResponse.Headers := ∅;
          HTTPResponse.Body := "pong"; HTTPResponse.Delay := 0 |} |}.

(** A request body as [json.Unmarshal] decodes it: the number 1 under
    [id], an object under [user]. *)
Definition exampleBody : gmap string Value :=
  {[ "id" := VFloat64 1 0; "user" := VMap {[ "name" := VString "bob" ]} ]}.

(** A request that carries no header at all. *)
Definition bareRequest : Request.t :=
  {| Request.Method := "GET"; Request.Path := "/ping";
     Request.Header := ∅; Request.Body := Some EmptyString |}.

End Http.

(* ===================================================================== *)
(** * The relay (Program/websocketbridge.go) *)
(* ===================================================================== *)

Module Bridge.

(** [websocket.TextMessage] and [websocket.BinaryMessage]. *)
Definition TextMessage : Z := 1.
Definition BinaryMessage : Z := 2.

(** What [wsConn.ReadMessage()] returns: a data message with its type, or
    an error (given by its text). *)
Inductive WsRead : Type :=
| WsMessage (messageType : Z) (message : list byte)
| WsReadErr (err : string).

(** What [tcpConn.Read(buffer)] returns under the 30 s deadline:
    [buffer[:n]], a timeout, or another error. *)
Inductive TcpRead : Type :=
| TcpData (data : list byte)
| TcpTimeout
| TcpReadErr (err : string).

(** The calls of a session on its two connections and on its error
    channel. *)
Inductive BridgeEvent : Type :=
| WsWriteMessage (messageType : Z) (data : list byte)
| TcpWrite (data : list byte)
| ErrChan (err : string)
| WsClose.

(** The goroutine "WebSocket -> TCP": [frames] are the results of the
    successive [ReadMessage] calls (past the end the call blocks),
    [tcpWriteErr k] the error of the [k]-th [tcpConn.Write], if any.  The
    result of the [WriteMessage] that reports invalid hex is discarded. *)
Fixpoint wsToTcp (tcpWriteErr : nat -> option string) (k : nat) (frames : list WsRead)
  : list BridgeEvent :=
  match frames with
  | [] => []
  | WsReadErr err :: _ => [ErrChan ("WS read error: " ++ err)%string]
  | WsMessage messageType message :: rest =>
      let send := fun dataToSend : list byte =>
        TcpWrite dataToSend ::
        match tcpWriteErr k with
        | Some err => [ErrChan ("TCP write error: " ++ err)%string]
        | None => wsToTcp tcpWriteErr (S k) rest
        end in
      if messageType =? BinaryMessage then send message
      else
        match Hex.DecodeString (string_of_list_byte message) with
        | (_, Some err) =>
            WsWriteMessage TextMessage
              (list_byte_of_string ("ERROR: Invalid hex: " ++ Hex.Error err)%string)
            :: wsToTcp tcpWriteErr k rest
        | (dataToSend, None) => send dataToSend
        end
  end.

(** What follows the [k]-th [tcpConn.Write] in "WebSocket -> TCP": its
    error ends the goroutine, otherwise the next frame is read. *)
Definition afterTcpWrite (tcpWriteErr : nat -> option string) (k : nat)
    (rest : list WsRead) : list BridgeEvent :=
  match tcpWriteErr k with
  | Some err => [ErrChan ("TCP write error: " ++ err)%string]
  | None => wsToTcp tcpWriteErr (S k) rest
  end.

(** The goroutine "TCP -> WebSocket": every chunk read is sent as one text
    frame holding its hex encoding; a timeout re-arms the read. *)
Fixpoint tcpToWs (wsWriteErr : nat -> option string) (k : nat) (reads : list TcpRead)
  : list BridgeEvent :=
  match reads with
  | [] => []
  | TcpTimeout :: rest => tcpToWs wsWriteErr k rest
  | TcpReadErr err :: _ => [ErrChan ("TCP read error: " ++ err)%string]
  | TcpData data :: rest =>
      WsWriteMessage TextMessage (list_byte_of_string (Hex.EncodeToString data)) ::
      match wsWriteErr k with
      | Some err => [ErrChan ("WS write error: " ++ err)%string]
      | None => tcpToWs wsWriteErr (S k) rest
      end
  end.

(** What follows the [k]-th data frame in "TCP -> WebSocket". *)
Definition afterWsWrite (wsWriteErr : nat -> option string) (k : nat)
    (rest : list TcpRead) : list BridgeEvent :=
  match wsWriteErr k with
  | Some err => [ErrChan ("WS write error: " ++ err)%string]
  | None => tcpToWs wsWriteErr (S k) rest
  end.

(** The text frame that reports a hex error. *)
Definition invalidHexFrame (err : Hex.HexError) : BridgeEvent :=
  WsWriteMessage TextMessage
    (list_byte_of_string ("ERROR: Invalid hex: " ++ Hex.Error err)%string).

(** The text frame that reports a failed connect. *)
Definition connectErrorFrame (err : string) : BridgeEvent :=
  WsWriteMessage TextMessage
    (list_byte_of_string ("ERROR: Cannot connect to TCP backend: " ++ err)%string).

(** What one request to [/ws] meets: the result of the upgrade, the result
    of [net.DialTimeout] (5 s), and the scripts of the two legs. *)
Record BridgeEnv : Type := mkBridgeEnv {
  upgradeErr : option string;
  dialErr : option string;
  wsFrames : list WsRead;
  tcpReads : list TcpRead;
  tcpWriteErr : nat -> option string;
  wsWriteErr : nat -> option string
}.

(** The course of [handleWebSocket].  Once both legs are open the two
    goroutines run concurrently; each is given by its own trace, and their
    interleaving is not modelled. *)
Inductive Session : Type :=
| UpgradeFailed
| ConnectFailed (events : list BridgeEvent)
| Relaying (up down : list BridgeEvent).

Definition handleWebSocket (env : BridgeEnv) : Session :=
  match upgradeErr env with
  | Some _ => UpgradeFailed
  | None =>
      match dialErr env with
      | Some err =>
          ConnectFailed
            [WsWriteMessage TextMessage
               (list_byte_of_string ("ERROR: Cannot connect to TCP backend: " ++ err)%string);
             WsClose]
      | None =>
          Relaying (wsToTcp (tcpWriteErr env) 0 (wsFrames env))
                   (tcpToWs (wsWriteErr env) 0 (tcpReads env))
      end
  end.

(** The goroutines a session started. *)
Definition loopsStarted (s : Session) : nat :=
  match s with
  | Relaying _ _ => 2
  | _ => 0
  end.

(** All the events of a session. *)
Definition eventsOf (s : Session) : list BridgeEvent :=
  match s with
  | UpgradeFailed => []
  | ConnectFailed events => events
  | Relaying up down => up ++ down
  end.

(** The text frames sent to the message-oriented peer. *)
Fixpoint textFramesOf (t : list BridgeEvent) : list (list byte) :=
  match t with
  | [] => []
  | WsWriteMessage mt d :: t' =>
      if mt =? TextMessage then d :: textFramesOf t' else textFramesOf t'
  | _ :: t' => textFramesOf t'
  end.

(** The bytes written to the byte-stream leg. *)
Fixpoint tcpWritesOf (t : list BridgeEvent) : list (list byte) :=
  match t with
  | [] => []
  | TcpWrite d :: t' => d :: tcpWritesOf t'
  | _ :: t' => tcpWritesOf t'
  end.

End Bridge.

(* ===================================================================== *)
(** * The servers around the handlers *)
(* ===================================================================== *)

(** The TCP stub server: its registry, its listeners. *)
Module TcpServer.
Import Tcp.

(** [NewTCPStubServer]: [stubs] is an empty [map[int]*TCPStub]. *)
Definition NewTCPStubServer : gmap Z TCPStub := ∅.

(** [AddStub]: [s.stubs[stub.Port] = &stub]. *)
Definition AddStub (stubs : gmap Z TCPStub) (stub : TCPStub) : gmap Z TCPStub :=
  <[Port stub := stub]> stubs.

(** The loop of [main] over [config.TCPStubs]. *)
Definition loadStubs (config : list TCPStub) : gmap Z TCPStub :=
  foldl AddStub NewTCPStubServer config.

(** The last stub of a list that is bound to a port. *)
Fixpoint lastWithPort (config : list TCPStub) (port : Z) : option TCPStub :=
  match config with
  | [] => None
  | stub :: rest =>
      match lastWithPort rest port with
      | Some later => Some later
      | None => if Port stub =? port then Some stub else None
      end
  end.

(** What [listener.Accept()] returns. *)
Inductive AcceptResult : Type :=
| Accepted (conn : ConnEnv)
| AcceptErr (err : string).

(** The loop of [listenTCP]: a failed accept is logged and the loop goes
    on; every accepted connection gets a handler of its own, given here by
    its trace.  Past the end of the script [Accept] blocks. *)
Fixpoint acceptLoop (stub : TCPStub) (accepts : list AcceptResult)
  : list (list ConnEvent) :=
  match accepts with
  | [] => []
  | AcceptErr _ :: rest => acceptLoop stub rest
  | Accepted conn :: rest => handleConnection stub conn :: acceptLoop stub rest
  end.

(** [listenTCP]: the error it returns when [net.Listen] fails ([None]: it
    never returns), and the traces of the handlers it started. *)
Definition listenTCP (port : Z) (stub : TCPStub) (listenErr : option string)
    (accepts : list AcceptResult) : option string * list (list ConnEvent) :=
  match listenErr with
  | Some err =>
      (Some ("failed to listen on port " ++ itoa port ++ ": " ++ err)%string, [])
  | None => (None, acceptLoop stub accepts)
  end.

(** [Start]: one [listenTCP] goroutine for every entry of the registry;
    [network port] is what the listener of [port] meets.  The result maps
    each port to the outcome of its goroutine; [Start] itself returns
    [nil]. *)
Definition Start (stubs : gmap Z TCPStub)
    (network : Z -> option string * list AcceptResult)
  : gmap Z (option string * list (list ConnEvent)) :=
  map_imap (fun port stub =>
              Some (listenTCP port stub (fst (network port)) (snd (network port))))
           stubs.

(** The number of [Close] calls of a trace. *)
Fixpoint closesOf (t : list ConnEvent) : nat :=
  match t with
  | [] => O
  | EvClose :: t' => S (closesOf t')
  | _ :: t' => closesOf t'
  end.

(** Two stubs that agree on the fields that say what to answer and when:
    the response, the close-after flag, the delay, the validation flag and
    the two bounds. *)
Definition sameServingFields (s1 s2 : TCPStub) : Prop :=
  ResponseMessage s1 = ResponseMessage s2 /\ ResponseHex s1 = ResponseHex s2 /\
  CloseAfter s1 = CloseAfter s2 /\ Delay s1 = Delay s2 /\
  ValidateRequest s1 = ValidateRequest s2 /\
  MinLength s1 = MinLength s2 /\ MaxLength s1 = MaxLength s2.

(** A rule with an error response configured, and the same rule without. *)
Definition errorResponseStub : TCPStub :=
  {| Name := "with-error"; Port := 9004; ResponseMessage := ""; ResponseHex := "0102";
     CloseAfter := true; Delay := 0; ValidateRequest := true;
     ExpectedHexPattern := ""; ExpectedPrefix := "";
     MinLength := 4; MaxLength := 8;
     ErrorResponse := "bad request"; ErrorResponseHex := "ff" |}.

(** Two rules of a configuration bound to one port. *)
Definition firstOn9000 : TCPStub :=
  {| Name := "first"; Port := 9000; ResponseMessage := "one"; ResponseHex := "";
     CloseAfter := true; Delay := 0; ValidateRequest := false;
     ExpectedHexPattern := ""; ExpectedPrefix := "";
     MinLength := 0; MaxLength := 0; ErrorResponse := ""; ErrorResponseHex := "" |}.

Definition secondOn9000 : TCPStub :=
  {| Name := "second"; Port := 9000; ResponseMessage := "two"; ResponseHex := "";
     CloseAfter := true; Delay := 0; ValidateRequest := false;
     ExpectedHexPattern := ""; ExpectedPrefix := "";
     MinLength := 0; MaxLength := 0; ErrorResponse := ""; ErrorResponseHex := "" |}.

(** A rule whose two bounds are the same odd number. *)
Definition oddBoundsStub : TCPStub :=
  {| Name := "odd"; Port := 9005; ResponseMessage := "never"; ResponseHex := "";
     CloseAfter := true; Delay := 0; ValidateRequest := true;
     ExpectedHexPattern := ""; ExpectedPrefix := "";
     MinLength := 5; MaxLength := 5; ErrorResponse := ""; ErrorResponseHex := "" |}.

End TcpServer.

(** The HTTP stub server: its list of stubs, the configuration, [main]. *)
Module HttpServer.
Import Http.

(** [NewHTTPStubServer]: [stubs] is an empty slice. *)
Definition NewHTTPStubServer : list HTTPStub.t := [].

(** [AddStub]: [s.stubs = append(s.stubs, stub)]. *)
Definition AddStub (stubs : list HTTPStub.t) (stub : HTTPStub.t) : list HTTPStub.t :=
  (stubs ++ [stub])%list.

(** The loop of [main] over [config.HTTPStubs]. *)
Definition loadStubs (config : list HTTPStub.t) : list HTTPStub.t :=
  foldl AddStub NewHTTPStubServer config.

(** The stub [main] installs when no configuration file is given. *)
Definition healthStub : HTTPStub.t :=
  {| HTTPStub.Name := "health-check"; HTTPStub.Method := "GET"; HTTPStub.Path := "/health";
     HTTPStub.Headers := ∅;
     HTTPStub.BodyContains := EmptyString; HTTPStub.BodyJSON := ∅;
     HTTPStub.Response :=
       {| HTTPResponse.Status := 200;
          HTTPResponse.Headers := {[ "Content-Type" := "application/json" ]};
          HTTPResponse.Body :=
            ("{" ++ quote ++ "status" ++ quote ++ ": " ++ quote ++ "ok" ++ quote ++ "}")%string;
          HTTPResponse.Delay := 0 |} |}.

(** A value or an error, given by its text. *)
Inductive result (A : Type) : Type :=
| Ok (a : A)
| Err (msg : string).
Arguments Ok {A} a.
Arguments Err {A} msg.

(** [type StubConfig struct] *)
Record StubConfig : Type := mkStubConfig {
  HTTPStubs : list HTTPStub.t;
  TCPStubs : list Tcp.TCPStub
}.

(** [strings.HasSuffix]: [len(s) >= len(suffix)] and the last
    [len(suffix)] bytes of [s] are [suffix]. *)
Definition HasSuffix (s suffix : string) : bool :=
  (String.length suffix <=? String.length s)%nat &&
  String.eqb (String.substring (String.length s - String.length suffix)
                               (String.length suffix) s)
             suffix.

Section WithFiles.

(** [os.ReadFile], [yaml.Unmarshal] and [json.Unmarshal] into a
    [StubConfig]. *)
Variable ReadFile : string -> result string.
Variable yamlUnmarshal : string -> result StubConfig.
Variable jsonUnmarshal : string -> result StubConfig.

(** [LoadConfig] *)
Definition LoadConfig (filename : string) : result StubConfig :=
  match ReadFile filename with
  | Err err => Err ("failed to read config file: " ++ err)%string
  | Ok data =>
      match (if HasSuffix filename ".yaml" || HasSuffix filename ".yml"
             then yamlUnmarshal data else jsonUnmarshal data) with
      | Err err => Err ("failed to parse config: " ++ err)%string
      | Ok config => Ok config
      end
  end.

(** The two servers as [main] sets them up from the [-config] flag: the
    stubs of the file, or the one hard-coded stub; [Err] is the
    [log.Fatalf] on a configuration that does not load. *)
Definition setup (configFile : string)
  : result (list HTTPStub.t * gmap Z Tcp.TCPStub) :=
  if negb (String.eqb configFile EmptyString) then
    match LoadConfig configFile with
    | Err err => Err ("Error loading config: " ++ err)%string
    | Ok config =>
        Ok (loadStubs (HTTPStubs config), TcpServer.loadStubs (TCPStubs config))
    end
  else
    Ok (AddStub NewHTTPStubServer healthStub, TcpServer.NewTCPStubServer).

End WithFiles.

End HttpServer.

(** The relay: the log lines' truncation, and the loops seen whole. *)
Module BridgeLoops.
Import Bridge.

(** [func min(a, b int) int] *)
Definition min (a b : Z) : Z := if a <? b then a else b.

(** [s[:hi]] on a string: [None] is the run-time panic of a bound outside
    [0..len(s)]. *)
Definition sliceTo (s : string) (hi : Z) : option string :=
  if (hi <? 0) || (Z.of_nat (String.length s) <? hi) then None
  else Some (String.substring 0 (Z.to_nat hi) s).

(** [hexStr[:min(40, len(hexStr))]], the part of the hex text that the two
    goroutines log. *)
Definition logPrefix (hexStr : string) : option string :=
  sliceTo hexStr (min 40 (Z.of_nat (String.length hexStr))).

(** The bytes a data message stands for: those of a binary message, the
    decoded ones of a text message that decodes. *)
Definition forwarded (frame : Z * list byte) : option (list byte) :=
  if fst frame =? BinaryMessage then Some (snd frame)
  else
    match Hex.DecodeString (string_of_list_byte (snd frame)) with
    | (decoded, None) => Some decoded
    | (_, Some _) => None
    end.

(** The report a data message is answered with: none for the messages
    that are forwarded. *)
Definition reported (frame : Z * list byte) : option (list byte) :=
  if fst frame =? BinaryMessage then None
  else
    match Hex.DecodeString (string_of_list_byte (snd frame)) with
    | (_, None) => None
    | (_, Some err) =>
        Some (list_byte_of_string ("ERROR: Invalid hex: " ++ Hex.Error err)%string)
    end.

(** The chunks read before the first read error, timeouts left out. *)
Fixpoint dataChunks (reads : list TcpRead) : list (list byte) :=
  match reads with
  | [] => []
  | TcpData data :: rest => data :: dataChunks rest
  | TcpTimeout :: rest => dataChunks rest
  | TcpReadErr _ :: _ => []
  end.

(** The sends on [errChan] of a trace. *)
Fixpoint errSends (t : list BridgeEvent) : nat :=
  match t with
  | [] => O
  | ErrChan _ :: t' => S (errSends t')
  | _ :: t' => errSends t'
  end.

(** [cap(errChan)], from [make(chan error, 2)]. *)
Definition errChanCapacity : nat := 2.

(** The bytes a text frame of the relay stands for. *)
Definition decodeFrame (frame : list byte) : list byte :=
  fst (Hex.DecodeString (string_of_list_byte frame)).

End BridgeLoops.

(* ===================================================================== *)
(** * Properties of encoding/hex *)
(* ===================================================================== *)

Section HexFacts.
Import Hex.

Lemma fromHexChar_high (v : byte) :
  fromHexChar (hexDigit (N.shiftr (Byte.to_N v) 4)) = Some (N.shiftr (Byte.to_N v) 4).
Proof. destruct v; reflexivity. Qed.

Lemma fromHexChar_low (v : byte) :
  fromHexChar (hexDigit (N.land (Byte.to_N v) 15)) = Some (N.land (Byte.to_N v) 15).
Proof. destruct v; reflexivity. Qed.

Lemma byteOfN_nibbles (v : byte) :
  byteOfN (N.lor (N.shiftl (N.shiftr (Byte.to_N v) 4) 4) (N.land (Byte.to_N v) 15)) = v.
Proof. destruct v; reflexivity. Qed.

Lemma DecodeString_EncodeToString (b : list byte) :
  DecodeString (EncodeToString b) = (b, None).
Proof.
  induction b as [|v b IH]; [reflexivity|].
  cbn [EncodeToString DecodeString].
  rewrite fromHexChar_high, fromHexChar_low, IH, byteOfN_nibbles.
  reflexivity.
Qed.

Lemma length_EncodeToString (b : list byte) :
  String.length (EncodeToString b) = (2 * List.length b)%nat.
Proof.
  induction b as [|v b IH]; [reflexivity|].
  cbn [EncodeToString String.length List.length]. rewrite IH. lia.
Qed.

Lemma encoded_EncodeToString (b : list byte) : encoded (EncodeToString b) = true.
Proof.
  induction b as [|v b IH]; [reflexivity|].
  cbn [EncodeToString encoded]. rewrite IH.
  destruct v; reflexivity.
Qed.

(** Two digits the encoder writes are the encoding of one byte. *)
Lemma lowerHex_pair (p q : ascii) :
  isLowerHexDigit p = true -> isLowerHexDigit q = true ->
  exists v : byte,
    fromHexChar p = Some (N.shiftr (Byte.to_N v) 4) /\
    fromHexChar q = Some (N.land (Byte.to_N v) 15) /\
    hexDigit (N.shiftr (Byte.to_N v) 4) = p /\
    hexDigit (N.land (Byte.to_N v) 15) = q.
Proof.
  intros Hp Hq.
  exists (byteOfN (N.lor (N.shiftl (match fromHexChar p with Some a => a | None => 0 end) 4)
                         (match fromHexChar q with Some b => b | None => 0 end))).
  revert Hp Hq.
  destruct p as [[] [] [] [] [] [] [] []]; intros Hp; try discriminate Hp;
    destruct q as [[] [] [] [] [] [] [] []]; intros Hq; try discriminate Hq;
    repeat split.
Qed.

(** On the texts the encoder writes, encoding undoes decoding. *)
Lemma EncodeToString_DecodeString (s : string) :
  encoded s = true ->
  snd (DecodeString s) = None /\ EncodeToString (fst (DecodeString s)) = s.
Proof.
  assert (H : (encoded s = true ->
               snd (DecodeString s) = None /\ EncodeToString (fst (DecodeString s)) = s) /\
              (forall c, encoded (String c s) = true ->
               snd (DecodeString (String c s)) = None /\
               EncodeToString (fst (DecodeString (String c s))) = String c s)).
  { induction s as [|d s [IH1 IH2]].
    - split; [intros _; split; reflexivity | intros c Hc; discriminate Hc].
    - split; [apply IH2|].
      intros c Hc. cbn [encoded] in Hc.
      apply andb_prop in Hc. destruct Hc as [Hc Hs].
      apply andb_prop in Hc. destruct Hc as [Hc Hd].
      destruct (lowerHex_pair c d Hc Hd) as (v & Hhi & Hlo & Ehi & Elo).
      destruct (IH1 Hs) as [Herr Henc].
      cbn [DecodeString]. rewrite Hhi, Hlo.
      destruct (DecodeString s) as [bytes err]. cbn [fst snd] in *.
      rewrite byteOfN_nibbles. cbn [EncodeToString].
      rewrite Ehi, Elo, Henc. split; [exact Herr | reflexivity]. }
  apply H.
Qed.

Example EncodeToString_f00d : EncodeToString [xf0; x0d] = "f00d".
Proof. reflexivity. Qed.

Example DecodeString_f00d : DecodeString "f00d" = ([xf0; x0d], None).
Proof. reflexivity. Qed.

Example DecodeString_zz : DecodeString "zz" = ([], Some (InvalidByteError "z")).
Proof. reflexivity. Qed.

Example DecodeString_odd : DecodeString "0102a" = ([x01; x02], Some ErrLength).
Proof. reflexivity. Qed.

(** The decoder accepts upper-case digits, which the encoder never
    writes: encoding what was decoded need not give the text back. *)
Example EncodeToString_DecodeString_upper :
  DecodeString "F00D" = ([xf0; x0d], None) /\
  EncodeToString (fst (DecodeString "F00D")) = "f00d".
Proof. split; reflexivity. Qed.

End HexFacts.

(* ===================================================================== *)
(** * Properties of the TCP connection handler *)
(* ===================================================================== *)

Section TcpFacts.
Import Hex Tcp.




(** The outcome of [validateRequest] is a function of the two bounds. *)
Lemma validateRequest_bounds_only (data : list byte) (s1 s2 : TCPStub) :
  MinLength s1 = MinLength s2 -> MaxLength s1 = MaxLength s2 ->
  validateRequest data s1 = validateRequest data s2.
Proof. intros Hlo Hhi. unfold validateRequest. rewrite Hlo, Hhi. reflexivity. Qed.

Lemma writesOf_app (t u : list ConnEvent) :
  writesOf (t ++ u) = (writesOf t ++ writesOf u)%list.
Proof.
  induction t as [|e t IH]; [reflexivity|].
  destruct e; cbn [writesOf app]; rewrite IH; reflexivity.
Qed.

Lemma readsOf_app (t u : list ConnEvent) :
  readsOf (t ++ u) = (readsOf t + readsOf u)%nat.
Proof.
  induction t as [|e t IH]; [reflexivity|].
  destruct e; cbn [readsOf app]; rewrite IH; reflexivity.
Qed.

Lemma writesOf_sleepFor (delay : Z) : writesOf (sleepFor delay) = [].
Proof. unfold sleepFor. destruct (delay >? 0); reflexivity. Qed.

Lemma readsOf_sleepFor (delay : Z) : readsOf (sleepFor delay) = O.
Proof. unfold sleepFor. destruct (delay >? 0); reflexivity. Qed.

Lemma In_sleepFor (delay : Z) (e : ConnEvent) :
  In e (sleepFor delay) -> e = EvSleep delay.
Proof.
  unfold sleepFor. destruct (delay >? 0); cbn [In]; intros H; [|contradiction].
  destruct H as [H|[]]. congruence.
Qed.

(** The kept connection answers each read with the same bytes. *)
Lemma keepAlive_exchanges (payload : list byte) (later : list (list byte)) (rest : list ReadResult) :
  keepAlive payload (map ReadOk later ++ rest) =
  (flat_map (exchange payload) later ++ keepAlive payload rest)%list.
Proof.
  induction later as [|d later IH]; [reflexivity|].
  cbn [map app keepAlive flat_map exchange]. rewrite IH. reflexivity.
Qed.

Lemma writesOf_exchanges (payload : list byte) (later : list (list byte)) :
  writesOf (flat_map (exchange payload) later) = repeat payload (List.length later).
Proof.
  induction later as [|d later IH]; [reflexivity|].
  cbn [flat_map exchange app writesOf List.length repeat]. rewrite IH. reflexivity.
Qed.




End TcpFacts.

Section TcpClaims.
Import Hex Tcp.




Example keepOpen_answers_short_request :
  handleConnection keepOpenStub (mkConnEnv [ReadOk [x01; x02]; ReadOk [x01]] false) =
  [EvRead (ReadOk [x01; x02]); EvWrite [x01; x02];
   EvRead (ReadOk [x01]); EvWrite [x01; x02]].
Proof. reflexivity. Qed.

Example negativeMax_answers :
  handleConnection negativeMaxStub (mkConnEnv [ReadOk [x01]] false) =
  [EvRead (ReadOk [x01]); EvWrite (list_byte_of_string "OK"); EvClose].
Proof. reflexivity. Qed.

Example badHex_writes_nothing :
  handleConnection badHexStub (mkConnEnv [ReadOk [x01; x02]] false) =
  [EvRead (ReadOk [x01; x02]); EvClose].
Proof. reflexivity. Qed.

(** C2.  For a rule with [CloseAfter = false] and any [N >= 1]: when the
    first of [N] requests on a connection is answered (it passes
    validation if the rule validates, the response bytes [payload] are
    computed, the first write succeeds), each of the [N] requests is
    answered with the same [payload].  Nothing is asked of the later
    requests: they are not validated, whatever their length. *)
Theorem keepalive_same_response (stub : TCPStub) (env : ConnEnv) (N : nat)
    (first : list byte) (later : list (list byte)) (rest : list ReadResult)
    (payload : list byte) :
  CloseAfter stub = false ->
  (1 <= N)%nat ->
  List.length (first :: later) = N ->
  incoming env = (map ReadOk (first :: later) ++ rest)%list ->
  (ValidateRequest stub = true -> fst (validateRequest first stub) = true) ->
  responseData stub = Some payload ->
  writeErr env = false ->
  handleConnection stub env =
    (EvRead (ReadOk first) :: sleepFor (Delay stub) ++ EvWrite payload ::
       flat_map (exchange payload) later ++ keepAlive payload rest)%list /\
  firstn N (writesOf (handleConnection stub env)) = repeat payload N.
Proof.
  intros Hclose HN Hlen Hin Hval Hp Hw.
  assert (Ht : handleConnection stub env =
    (EvRead (ReadOk first) :: sleepFor (Delay stub) ++ EvWrite payload ::
       flat_map (exchange payload) later ++ keepAlive payload rest)%list).
  { unfold handleConnection. rewrite Hin. cbn [map app].
    destruct (ValidateRequest stub) eqn:Hv.
    - rewrite (Hval eq_refl). cbn [andb negb].
      rewrite Hp, Hw, Hclose. cbn [negb]. rewrite keepAlive_exchanges. reflexivity.
    - cbn [andb]. rewrite Hp, Hw, Hclose. cbn [negb].
      rewrite keepAlive_exchanges. reflexivity. }
  split; [exact Ht|].
  rewrite Ht. cbn [writesOf]. rewrite writesOf_app, writesOf_sleepFor.
  cbn [app writesOf]. rewrite writesOf_app, writesOf_exchanges.
  subst N. cbn [List.length firstn repeat]. f_equal.
  rewrite firstn_app, firstn_all2 by (rewrite repeat_length; lia).
  rewrite repeat_length, Nat.sub_diag. cbn [firstn]. apply app_nil_r.
Qed.

(** Three requests on one connection; the second is too short and the
    third too long for the bounds of the rule, and both are answered. *)
Lemma keepalive_same_response_witness :
  handleConnection keepOpenStub
    (mkConnEnv [ReadOk [x01; x02]; ReadOk [x01];
                ReadOk [x01; x02; x03; x04; x05]; ReadErr] false) =
    (EvRead (ReadOk [x01; x02]) :: sleepFor 0 ++ EvWrite [x01; x02] ::
       flat_map (exchange [x01; x02]) [[x01]; [x01; x02; x03; x04; x05]] ++
       keepAlive [x01; x02] [ReadErr])%list /\
  firstn 3 (writesOf (handleConnection keepOpenStub
    (mkConnEnv [ReadOk [x01; x02]; ReadOk [x01];
                ReadOk [x01; x02; x03; x04; x05]; ReadErr] false))) =
    repeat [x01; x02] 3.
Proof.
  apply (keepalive_same_response keepOpenStub
           (mkConnEnv [ReadOk [x01; x02]; ReadOk [x01];
                       ReadOk [x01; x02; x03; x04; x05]; ReadErr] false)
           3 [x01; x02] [[x01]; [x01; x02; x03; x04; x05]] [ReadErr] [x01; x02]).
  - reflexivity.
  - lia.
  - reflexivity.
  - reflexivity.
  - intros _. reflexivity.
  - reflexivity.
  - reflexivity.
Defined.

Example later_requests_fail_validation :
  fst (validateRequest [x01] keepOpenStub) = false /\
  fst (validateRequest [x01; x02; x03; x04; x05] keepOpenStub) = false.
Proof. split; reflexivity. Qed.

End TcpClaims.

Section TcpCloseAfter.
Import Hex Tcp.

(** C3.  For a rule with [CloseAfter = true], whatever the peer does: the
    handler reads at most once and writes at most once; when it writes the
    response, the connection saw exactly one exchange (one read, the
    optional sleep, one write of the response bytes) and was then closed,
    with no read or write after it; and that is what happens whenever the
    first read returns a request that passes validation (if enabled) and
    the response bytes are computed, whatever input is pending after the
    request. *)
Theorem close_after_single_exchange (stub : TCPStub) (env : ConnEnv) :
  CloseAfter stub = true ->
  (readsOf (handleConnection stub env) <= 1)%nat /\
  (List.length (writesOf (handleConnection stub env)) <= 1)%nat /\
  (forall payload, In (EvWrite payload) (handleConnection stub env) ->
     exists data,
       responseData stub = Some payload /\
       handleConnection stub env =
         (EvRead (ReadOk data) :: sleepFor (Delay stub) ++ [EvWrite payload; EvClose])%list) /\
  (forall data rest payload,
     incoming env = ReadOk data :: rest ->
     (ValidateRequest stub = true -> fst (validateRequest data stub) = true) ->
     responseData stub = Some payload ->
     handleConnection stub env =
       (EvRead (ReadOk data) :: sleepFor (Delay stub) ++ [EvWrite payload; EvClose])%list).
Proof.
  intros Hclose.
  assert (Hshape :
    handleConnection stub env = [] \/
    handleConnection stub env = [EvRead ReadErr; EvClose] \/
    (exists data, handleConnection stub env = [EvRead (ReadOk data); EvClose]) \/
    (exists data, handleConnection stub env =
       (EvRead (ReadOk data) :: sleepFor (Delay stub) ++ [EvClose])%list) \/
    (exists data payload, responseData stub = Some payload /\
       handleConnection stub env =
       (EvRead (ReadOk data) :: sleepFor (Delay stub) ++ [EvWrite payload; EvClose])%list)).
  { unfold handleConnection. rewrite Hclose. cbn [negb].
    destruct (incoming env) as [|[data|] rest]; [tauto | | tauto].
    destruct (ValidateRequest stub && negb (fst (validateRequest data stub))).
    - right. right. left. eauto.
    - destruct (responseData stub) as [resp|].
      + right. right. right. right. exists data, resp. split; [reflexivity|].
        destruct (writeErr env); reflexivity.
      + right. right. right. left. eauto. }
  repeat split.
  - destruct Hshape as [H|[H|[[d H]|[[d H]|(d & p & _ & H)]]]]; rewrite H;
      cbn [readsOf]; rewrite ?readsOf_app, ?readsOf_sleepFor; cbn [readsOf]; lia.
  - destruct Hshape as [H|[H|[[d H]|[[d H]|(d & p & _ & H)]]]]; rewrite H;
      cbn [writesOf]; rewrite ?writesOf_app, ?writesOf_sleepFor; cbn [writesOf app List.length]; lia.
  - intros payload Hw.
    destruct Hshape as [H|[H|[[d H]|[[d H]|(d & p & Hp & H)]]]]; rewrite H in Hw.
    + destruct Hw.
    + cbn [In] in Hw. destruct Hw as [Hw|[Hw|[]]]; discriminate.
    + cbn [In] in Hw. destruct Hw as [Hw|[Hw|[]]]; discriminate.
    + cbn [In] in Hw. destruct Hw as [Hw|Hw]; [discriminate|].
      apply in_app_or in Hw. destruct Hw as [Hw|Hw].
      * apply In_sleepFor in Hw. discriminate.
      * cbn [In] in Hw. destruct Hw as [Hw|[]]. discriminate.
    + cbn [In] in Hw. destruct Hw as [Hw|Hw]; [discriminate|].
      apply in_app_or in Hw. destruct Hw as [Hw|Hw].
      * apply In_sleepFor in Hw. discriminate.
      * cbn [In] in Hw. destruct Hw as [Hw|[Hw|[]]]; [|discriminate].
        injection Hw as Hw. subst p. exists d. split; assumption.
  - intros data rest payload Hin Hval Hp.
    unfold handleConnection. rewrite Hin, Hclose, Hp. cbn [negb].
    destruct (ValidateRequest stub).
    + rewrite (Hval eq_refl). cbn [andb negb]. destruct (writeErr env); reflexivity.
    + cbn [andb]. destruct (writeErr env); reflexivity.
Qed.

(** The scenario rule on a peer that sends two requests: the second is
    never read. *)
Lemma close_after_single_exchange_witness :
  (readsOf (handleConnection scenarioStub
      (mkConnEnv [ReadOk [x01; x02]; ReadOk [x03; x04]] false)) <= 1)%nat /\
  (List.length (writesOf (handleConnection scenarioStub
      (mkConnEnv [ReadOk [x01; x02]; ReadOk [x03; x04]] false))) <= 1)%nat /\
  handleConnection scenarioStub (mkConnEnv [ReadOk [x01; x02]; ReadOk [x03; x04]] false) =
    (EvRead (ReadOk [x01; x02]) :: sleepFor 0 ++ [EvWrite [x01; x02]; EvClose])%list.
Proof.
  pose proof (close_after_single_exchange scenarioStub
                (mkConnEnv [ReadOk [x01; x02]; ReadOk [x03; x04]] false) eq_refl)
    as (Hr & Hw & _ & Hone).
  split; [exact Hr|]. split; [exact Hw|].
  apply (Hone [x01; x02] [ReadOk [x03; x04]] [x01; x02]); reflexivity.
Defined.

Example scenario_valid_request :
  handleConnection scenarioStub (mkConnEnv [ReadOk [x01; x02]; ReadOk [x03; x04]] false) =
  [EvRead (ReadOk [x01; x02]); EvWrite [x01; x02]; EvClose].
Proof. reflexivity. Qed.

Example scenario_short_request :
  handleConnection scenarioStub (mkConnEnv [ReadOk [x01]] false) =
  [EvRead (ReadOk [x01]); EvClose].
Proof. reflexivity. Qed.

(** C9.  Two rules that differ only in [ExpectedPrefix] and
    [ExpectedHexPattern] give every request the same validation outcome:
    the same verdict and the same reason. *)
Theorem validation_ignores_prefix_and_pattern (data : list byte) (s1 s2 : TCPStub) :
  sameButPrefixAndPattern s1 s2 ->
  validateRequest data s1 = validateRequest data s2.
Proof.
  intros (_ & _ & _ & _ & _ & _ & _ & Hlo & Hhi & _).
  apply validateRequest_bounds_only; assumption.
Qed.

Lemma validation_ignores_prefix_and_pattern_witness :
  validateRequest [x01]
    {| Name := "scenario"; Port := 9000; ResponseMessage := ""; ResponseHex := "0102";
       CloseAfter := true; Delay := 0; ValidateRequest := true;
       ExpectedHexPattern := "^00c4"; ExpectedPrefix := "00c4";
       MinLength := 4; MaxLength := 8; ErrorResponse := ""; ErrorResponseHex := "" |} =
  validateRequest [x01] scenarioStub.
Proof.
  apply validation_ignores_prefix_and_pattern.
  unfold sameButPrefixAndPattern. cbn. repeat split; reflexivity.
Defined.

(** The whole handler, too, reads neither field. *)
Lemma handleConnection_ignores_prefix_and_pattern (s1 s2 : TCPStub) (env : ConnEnv) :
  sameButPrefixAndPattern s1 s2 ->
  handleConnection s1 env = handleConnection s2 env.
Proof.
  intros (_ & _ & Hm & Hh & Hc & Hd & Hv & Hlo & Hhi & _).
  unfold handleConnection, responseData.
  rewrite Hm, Hh, Hc, Hd, Hv.
  destruct (incoming env) as [|[data|] rest]; [reflexivity| |reflexivity].
  rewrite (validateRequest_bounds_only data s1 s2 Hlo Hhi). reflexivity.
Qed.

End TcpCloseAfter.

(* ===================================================================== *)
(** * Properties of the relay *)
(* ===================================================================== *)

Section BridgeFacts.
Import Hex Bridge.

Lemma tcpWritesOf_app (t u : list BridgeEvent) :
  tcpWritesOf (t ++ u) = (tcpWritesOf t ++ tcpWritesOf u)%list.
Proof.
  induction t as [|e t IH]; [reflexivity|].
  destruct e; cbn [tcpWritesOf app]; rewrite IH; reflexivity.
Qed.

(** One step of "WebSocket -> TCP" on a binary frame. *)
Lemma wsToTcp_binary (tcpWriteErr : nat -> option string) (k : nat)
    (message : list byte) (rest : list WsRead) :
  wsToTcp tcpWriteErr k (WsMessage BinaryMessage message :: rest) =
  TcpWrite message :: afterTcpWrite tcpWriteErr k rest.
Proof. reflexivity. Qed.

(** One step of "WebSocket -> TCP" on a frame that is not binary. *)
Lemma wsToTcp_text (tcpWriteErr : nat -> option string) (k : nat)
    (messageType : Z) (message : list byte) (rest : list WsRead) :
  messageType <> BinaryMessage ->
  wsToTcp tcpWriteErr k (WsMessage messageType message :: rest) =
  match DecodeString (string_of_list_byte message) with
  | (_, Some err) => invalidHexFrame err :: wsToTcp tcpWriteErr k rest
  | (dataToSend, None) => TcpWrite dataToSend :: afterTcpWrite tcpWriteErr k rest
  end.
Proof.
  intros Hne. cbn [wsToTcp].
  destruct (messageType =? BinaryMessage) eqn:E.
  - apply Z.eqb_eq in E. contradiction.
  - destruct (DecodeString (string_of_list_byte message)) as [d [err|]]; reflexivity.
Qed.

(** C4.  In the direction "WebSocket -> TCP", for every frame received: a
    binary frame is written to the TCP leg as it is, and a text frame is
    read as a hexadecimal string whose decoded bytes are written; the text
    frame f00d makes the relay write exactly the two bytes 0xf0, 0x0d. *)
Theorem wsToTcp_forwards (tcpWriteErr : nat -> option string) (k : nat)
    (messageType : Z) (message : list byte) (rest : list WsRead) :
  (messageType = BinaryMessage ->
     wsToTcp tcpWriteErr k (WsMessage messageType message :: rest) =
     TcpWrite message :: afterTcpWrite tcpWriteErr k rest) /\
  (messageType = TextMessage ->
     forall decoded,
       DecodeString (string_of_list_byte message) = (decoded, None) ->
       wsToTcp tcpWriteErr k (WsMessage messageType message :: rest) =
       TcpWrite decoded :: afterTcpWrite tcpWriteErr k rest) /\
  wsToTcp tcpWriteErr k (WsMessage TextMessage (list_byte_of_string "f00d") :: rest) =
    TcpWrite [xf0; x0d] :: afterTcpWrite tcpWriteErr k rest.
Proof.
  split; [|split].
  - intros ->. apply wsToTcp_binary.
  - intros -> decoded Hd. rewrite wsToTcp_text by discriminate. rewrite Hd. reflexivity.
  - rewrite wsToTcp_text by discriminate. reflexivity.
Qed.

Example f00d_writes_two_bytes :
  tcpWritesOf (wsToTcp (fun _ => None) 0 [WsMessage TextMessage (list_byte_of_string "f00d")]) =
  [[xf0; x0d]].
Proof. reflexivity. Qed.

(** C5.  A text frame whose content does not decode as hexadecimal is not
    forwarded: the relay sends one error text frame back and goes on with
    the frames that follow, from the state it was in (no [Write] on the
    TCP leg was made for the frame, nothing was put on the error
    channel). *)
Theorem invalid_hex_reported (tcpWriteErr : nat -> option string) (k : nat)
    (message : list byte) (rest : list WsRead)
    (partial : list byte) (err : HexError) :
  DecodeString (string_of_list_byte message) = (partial, Some err) ->
  wsToTcp tcpWriteErr k (WsMessage TextMessage message :: rest) =
    invalidHexFrame err :: wsToTcp tcpWriteErr k rest /\
  tcpWritesOf (wsToTcp tcpWriteErr k (WsMessage TextMessage message :: rest)) =
    tcpWritesOf (wsToTcp tcpWriteErr k rest) /\
  textFramesOf (wsToTcp tcpWriteErr k (WsMessage TextMessage message :: rest)) =
    list_byte_of_string ("ERROR: Invalid hex: " ++ Error err)%string ::
    textFramesOf (wsToTcp tcpWriteErr k rest).
Proof.
  intros Hd.
  assert (H : wsToTcp tcpWriteErr k (WsMessage TextMessage message :: rest) =
              invalidHexFrame err :: wsToTcp tcpWriteErr k rest).
  { rewrite wsToTcp_text by discriminate. rewrite Hd. reflexivity. }
  rewrite H. repeat split.
Qed.

(** The scenario of the specification: zz is answered with one error
    frame, and the f00d that follows is relayed. *)
Lemma invalid_hex_reported_witness :
  wsToTcp (fun _ => None) 0
    [WsMessage TextMessage (list_byte_of_string "zz");
     WsMessage TextMessage (list_byte_of_string "f00d")] =
    invalidHexFrame (InvalidByteError "z") ::
    wsToTcp (fun _ => None) 0 [WsMessage TextMessage (list_byte_of_string "f00d")] /\
  tcpWritesOf (wsToTcp (fun _ => None) 0
    [WsMessage TextMessage (list_byte_of_string "zz");
     WsMessage TextMessage (list_byte_of_string "f00d")]) =
    tcpWritesOf (wsToTcp (fun _ => None) 0 [WsMessage TextMessage (list_byte_of_string "f00d")]) /\
  textFramesOf (wsToTcp (fun _ => None) 0
    [WsMessage TextMessage (list_byte_of_string "zz");
     WsMessage TextMessage (list_byte_of_string "f00d")]) =
    list_byte_of_string ("ERROR: Invalid hex: " ++ Error (InvalidByteError "z"))%string ::
    textFramesOf (wsToTcp (fun _ => None) 0 [WsMessage TextMessage (list_byte_of_string "f00d")]).
Proof.
  apply (invalid_hex_reported (fun _ => None) 0 (list_byte_of_string "zz")
           [WsMessage TextMessage (list_byte_of_string "f00d")] []).
  reflexivity.
Defined.

Example zz_then_f00d :
  wsToTcp (fun _ => None) 0
    [WsMessage TextMessage (list_byte_of_string "zz");
     WsMessage TextMessage (list_byte_of_string "f00d")] =
  [WsWriteMessage TextMessage
     (list_byte_of_string "ERROR: Invalid hex: encoding/hex: invalid byte: U+007A 'z'");
   TcpWrite [xf0; x0d]].
Proof. reflexivity. Qed.

(** Invalid frames between valid ones leave the relayed bytes as they
    would be without them. *)
Lemma invalid_frames_skipped (tcpWriteErr : nat -> option string) (k : nat)
    (bad : list (list byte)) (rest : list WsRead) :
  Forall (fun message => exists partial err,
            DecodeString (string_of_list_byte message) = (partial, Some err)) bad ->
  tcpWritesOf (wsToTcp tcpWriteErr k (map (WsMessage TextMessage) bad ++ rest)) =
  tcpWritesOf (wsToTcp tcpWriteErr k rest).
Proof.
  induction 1 as [|message bad (partial & err & Hd) _ IH]; [reflexivity|].
  cbn [map app]. rewrite wsToTcp_text by discriminate. rewrite Hd.
  cbn [tcpWritesOf invalidHexFrame]. exact IH.
Qed.

(** C6.  For every byte sequence [b]: decoding the hex encoding of [b]
    gives [b] back, with no error.  On the relay: the chunk [b] read from
    the TCP leg is sent as the text frame that holds its encoding, and
    that text frame, received in the other direction, makes the relay
    write exactly [b] to the TCP leg.  The two functions are inverse of
    each other between the byte sequences and the texts the encoder
    writes: such a text [s] decodes with no error, to bytes whose encoding
    is [s]. *)
Theorem hex_roundtrip (b : list byte) (s : string)
    (wsWriteErr tcpWriteErr : nat -> option string) (k k' : nat)
    (reads : list TcpRead) (frames : list WsRead) :
  DecodeString (EncodeToString b) = (b, None) /\
  encoded (EncodeToString b) = true /\
  (encoded s = true ->
   snd (DecodeString s) = None /\ EncodeToString (fst (DecodeString s)) = s) /\
  tcpToWs wsWriteErr k (TcpData b :: reads) =
    WsWriteMessage TextMessage (list_byte_of_string (EncodeToString b)) ::
    afterWsWrite wsWriteErr k reads /\
  wsToTcp tcpWriteErr k'
    (WsMessage TextMessage (list_byte_of_string (EncodeToString b)) :: frames) =
    TcpWrite b :: afterTcpWrite tcpWriteErr k' frames.
Proof.
  split; [apply DecodeString_EncodeToString|].
  split; [apply encoded_EncodeToString|].
  split; [apply EncodeToString_DecodeString|]. split; [reflexivity|].
  rewrite wsToTcp_text by discriminate.
  rewrite string_of_list_byte_of_string, DecodeString_EncodeToString. reflexivity.
Qed.

Example hex_roundtrip_empty : DecodeString (EncodeToString []) = ([], None).
Proof. reflexivity. Qed.

Example hex_roundtrip_full_buffer :
  DecodeString (EncodeToString (repeat xff 4096)) = (repeat xff 4096, None) /\
  List.length (repeat xff 4096) = 4096%nat.
Proof. split; [apply DecodeString_EncodeToString | apply repeat_length]. Qed.

(** C7.  A session whose TCP leg cannot be connected ends having sent one
    text frame, the error report, and having started none of the two
    relay goroutines: nothing is read from or written to either leg
    besides that frame. *)
Theorem connect_failure_ends_session (env : BridgeEnv) (err : string) :
  upgradeErr env = None ->
  dialErr env = Some err ->
  handleWebSocket env = ConnectFailed [connectErrorFrame err; WsClose] /\
  textFramesOf (eventsOf (handleWebSocket env)) =
    [list_byte_of_string ("ERROR: Cannot connect to TCP backend: " ++ err)%string] /\
  loopsStarted (handleWebSocket env) = 0%nat /\
  tcpWritesOf (eventsOf (handleWebSocket env)) = [].
Proof.
  intros Hup Hdial. unfold handleWebSocket. rewrite Hup, Hdial. repeat split.
Qed.

Lemma connect_failure_ends_session_witness :
  handleWebSocket
    {| upgradeErr := None;
       dialErr := Some "dial tcp 127.0.0.1:8001: connect: connection refused";
       wsFrames := [WsMessage TextMessage (list_byte_of_string "f00d")];
       tcpReads := [TcpData [x01]];
       tcpWriteErr := fun _ => None;
       wsWriteErr := fun _ => None |} =
    ConnectFailed
      [connectErrorFrame "dial tcp 127.0.0.1:8001: connect: connection refused"; WsClose] /\
  textFramesOf (eventsOf (handleWebSocket
    {| upgradeErr := None;
       dialErr := Some "dial tcp 127.0.0.1:8001: connect: connection refused";
       wsFrames := [WsMessage TextMessage (list_byte_of_string "f00d")];
       tcpReads := [TcpData [x01]];
       tcpWriteErr := fun _ => None;
       wsWriteErr := fun _ => None |})) =
    [list_byte_of_string
       ("ERROR: Cannot connect to TCP backend: "
          ++ "dial tcp 127.0.0.1:8001: connect: connection refused")%string] /\
  loopsStarted (handleWebSocket
    {| upgradeErr := None;
       dialErr := Some "dial tcp 127.0.0.1:8001: connect: connection refused";
       wsFrames := [WsMessage TextMessage (list_byte_of_string "f00d")];
       tcpReads := [TcpData [x01]];
       tcpWriteErr := fun _ => None;
       wsWriteErr := fun _ => None |}) = 0%nat /\
  tcpWritesOf (eventsOf (handleWebSocket
    {| upgradeErr := None;
       dialErr := Some "dial tcp 127.0.0.1:8001: connect: connection refused";
       wsFrames := [WsMessage TextMessage (list_byte_of_string "f00d")];
       tcpReads := [TcpData [x01]];
       tcpWriteErr := fun _ => None;
       wsWriteErr := fun _ => None |})) = [].
Proof.
  apply connect_failure_ends_session; reflexivity.
Defined.

(** With both legs open the two goroutines are started. *)
Lemma connected_session_relays (env : BridgeEnv) :
  upgradeErr env = None -> dialErr env = None ->
  loopsStarted (handleWebSocket env) = 2%nat.
Proof. intros Hup Hdial. unfold handleWebSocket. rewrite Hup, Hdial. reflexivity. Qed.

End BridgeFacts.

(* ===================================================================== *)
(** * Properties of the HTTP stub server *)
(* ===================================================================== *)

Section PathFacts.
Import Http.

Lemma append_empty_r (a : string) : (a ++ EmptyString)%string = a.
Proof.
  induction a as [|c a IH]; [reflexivity|].
  change (String c (a ++ EmptyString)%string = String c a). rewrite IH. reflexivity.
Qed.

Lemma append_snoc (a : string) (c : ascii) (b : string) :
  ((a ++ String c EmptyString) ++ b)%string = (a ++ String c b)%string.
Proof.
  induction a as [|x a IH]; [reflexivity|].
  change (String x ((a ++ String c EmptyString) ++ b)%string = String x (a ++ String c b)%string).
  rewrite IH. reflexivity.
Qed.

Lemma In_append (x : ascii) (a b : string) :
  In x (list_ascii_of_string (a ++ b)) <->
  In x (list_ascii_of_string a) \/ In x (list_ascii_of_string b).
Proof.
  induction a as [|c a IH].
  - cbn. tauto.
  - change (c = x \/ In x (list_ascii_of_string (a ++ b)) <->
            (c = x \/ In x (list_ascii_of_string a)) \/ In x (list_ascii_of_string b)).
    rewrite IH. tauto.
Qed.

Lemma concat_cons (sep x : string) (l : list string) :
  l <> [] -> String.concat sep (x :: l) = (x ++ sep ++ String.concat sep l)%string.
Proof. destruct l; [congruence | reflexivity]. Qed.

Lemma splitFrom_not_nil (sep : ascii) (s field : string) :
  splitFrom sep s field <> [].
Proof.
  revert field. induction s as [|c s IH]; intros field; cbn [splitFrom].
  - discriminate.
  - destruct (Ascii.eqb c sep); [discriminate | apply IH].
Qed.

(** [Split] reads a name that holds no separator as one piece of a field. *)
Lemma splitFrom_name (sep : ascii) (k s field : string) :
  ~ In sep (list_ascii_of_string k) ->
  splitFrom sep (k ++ s) field = splitFrom sep s (field ++ k).
Proof.
  revert field. induction k as [|c k IH]; intros field Hk.
  - rewrite append_empty_r. reflexivity.
  - simpl in Hk. change (String c k ++ s)%string with (String c (k ++ s)%string).
    cbn [splitFrom].
    destruct (Ascii.eqb_spec c sep) as [->|Hc]; [exfalso; apply Hk; left; reflexivity|].
    rewrite IH by (intros Hin; apply Hk; right; exact Hin).
    rewrite append_snoc. reflexivity.
Qed.

(** [Split] gives back the names that were joined with dots. *)
Lemma splitFrom_concat (keys : list string) (field : string) :
  Forall dotFree keys ->
  splitFrom "."%char (String.concat "." keys) field =
  match keys with
  | [] => [field]
  | k :: rest => (field ++ k)%string :: rest
  end.
Proof.
  intros Hk. revert field. induction Hk as [|k rest Hdot Hrest IH]; intros field.
  - reflexivity.
  - destruct rest as [|k2 rest].
    + cbn [String.concat]. rewrite <- (append_empty_r k) at 1.
      rewrite splitFrom_name by exact Hdot. reflexivity.
    + rewrite concat_cons by discriminate.
      rewrite splitFrom_name by exact Hdot.
      change ("." ++ String.concat "." (k2 :: rest))%string
        with (String "."%char (String.concat "." (k2 :: rest))).
      cbn [splitFrom]. rewrite Ascii.eqb_refl. rewrite IH. reflexivity.
Qed.

(** Joining with dots what [Split] returns gives the path back. *)
Lemma concat_splitFrom (s field : string) :
  String.concat "." (splitFrom "."%char s field) = (field ++ s)%string.
Proof.
  revert field. induction s as [|c s IH]; intros field; cbn [splitFrom].
  - rewrite append_empty_r. reflexivity.
  - destruct (Ascii.eqb_spec c "."%char) as [->|Hc].
    + rewrite concat_cons by apply splitFrom_not_nil. rewrite IH. reflexivity.
    + rewrite IH. apply append_snoc.
Qed.

Lemma splitFrom_dotFree (s field : string) :
  dotFree field -> Forall dotFree (splitFrom "."%char s field).
Proof.
  revert field. induction s as [|c s IH]; intros field Hf; cbn [splitFrom].
  - constructor; [exact Hf | constructor].
  - destruct (Ascii.eqb_spec c "."%char) as [->|Hc].
    + constructor; [exact Hf|]. apply IH. intros [].
    + apply IH. intros Hin. apply In_append in Hin. destruct Hin as [Hin|Hin].
      * exact (Hf Hin).
      * simpl in Hin. destruct Hin as [->|[]]. apply Hc. reflexivity.
Qed.

(** The names of a path are what [Split] returns for it, and nothing else. *)
Lemma Split_names (path : string) (keys : list string) :
  namesOf_spec path keys <-> keys = Split path "."%char.
Proof.
  unfold namesOf_spec, Split. split.
  - intros (Hne & Hdot & ->). rewrite splitFrom_concat by exact Hdot.
    destruct keys as [|k rest]; [congruence | reflexivity].
  - intros ->. split; [apply splitFrom_not_nil|]. split.
    + apply splitFrom_dotFree. intros [].
    + rewrite concat_splitFrom. reflexivity.
Qed.

End PathFacts.

Section HttpFacts.
Import Http.

Variable EqualFold : string -> string -> bool.
Variable Unmarshal : string -> option (gmap string Value).
Variable Sprintf_v : Value -> string.

Lemma walk_app (v : Value) (before after : list string) :
  walk v (before ++ after) =
  match walk v before with
  | Some w => walk w after
  | None => None
  end.
Proof.
  revert v. induction before as [|key before IH]; intros v; [reflexivity|].
  cbn [app walk]. destruct v; try reflexivity. apply IH.
Qed.

(** [walk] finds what the specification's relation finds: a member that
    the object holds is found with [m !! key], and the [nil] that [m[key]]
    gives for a member it does not hold ends the walk as the null value,
    or stops it when names are left. *)
Lemma walk_valueAt (v : Value) (keys : list string) (w : Value) :
  walk v keys = Some w <-> valueAt_spec v keys w.
Proof.
  split.
  - revert v. induction keys as [|key keys IH]; intros v H; cbn [walk] in H.
    + injection H as ->. constructor.
    + destruct v as [| | | | | |m]; try discriminate. unfold index in H.
      destruct (m !! key) as [child|] eqn:Hl.
      * apply AtMember with child; [exact Hl | apply IH; exact H].
      * destruct keys as [|key' keys]; cbn [walk] in H; [|discriminate].
        injection H as <-. apply AtAbsent. exact Hl.
  - induction 1 as [v|m key child rest v Hl _ IH|m key Hl].
    + reflexivity.
    + cbn [walk]. unfold index. rewrite Hl. exact IH.
    + cbn [walk]. unfold index. rewrite Hl. reflexivity.
Qed.

Lemma walk_non_object (v : Value) (key : string) (after : list string) :
  (forall m, v <> VMap m) -> walk v (key :: after) = None.
Proof. intros Hv. destruct v; try reflexivity. exfalso. exact (Hv m eq_refl). Qed.

Lemma matchRequest_snd (r : Request.t) (stub : HTTPStub.t) :
  snd (matchRequest EqualFold Unmarshal Sprintf_v r stub) = r.
Proof.
  unfold matchRequest. destruct r as [method path header body]. cbn.
  repeat match goal with
         | |- context [if ?c then _ else _] => destruct c
         | |- context [match ?o with Some _ => _ | None => _ end] => destruct o
         end; reflexivity.
Qed.

Lemma headersMatch_iff (r : Request.t) (stub : HTTPStub.t) :
  headersMatch r stub = true <->
  forall key value, HTTPStub.Headers stub !! key = Some value ->
    Get (Request.Header r) key = value.
Proof.
  unfold headersMatch. rewrite forallb_forall. split.
  - intros H key value Hl. apply String.eqb_eq.
    apply (H (key, value)). apply list_elem_of_In, elem_of_map_to_list. exact Hl.
  - intros H [key value] Hin. apply String.eqb_eq. cbn [fst snd].
    apply H. apply elem_of_map_to_list, list_elem_of_In. exact Hin.
Qed.

Lemma fieldsMatch_iff (requestJSON : gmap string Value) (stub : HTTPStub.t) :
  fieldsMatch Sprintf_v requestJSON stub = true <->
  forall key expected, HTTPStub.BodyJSON stub !! key = Some expected ->
    jsonFieldMatches Sprintf_v requestJSON key expected = true.
Proof.
  unfold fieldsMatch. rewrite forallb_forall. split.
  - intros H key expected Hl.
    apply (H (key, expected)). apply list_elem_of_In, elem_of_map_to_list. exact Hl.
  - intros H [key expected] Hin. cbn [fst snd].
    apply H. apply elem_of_map_to_list, list_elem_of_In. exact Hin.
Qed.

Lemma respond_valid (stub : HTTPStub.t) :
  validStatus (HTTPResponse.Status (HTTPStub.Response stub)) = true ->
  respond stub = Replied (replyOf stub).
Proof. intros H. unfold respond. rewrite H. reflexivity. Qed.

Lemma respond_invalid (stub : HTTPStub.t) :
  validStatus (HTTPResponse.Status (HTTPStub.Response stub)) = false ->
  forall reply, respond stub <> Replied reply.
Proof. intros H reply. unfold respond. rewrite H. discriminate. Qed.

Lemma size_positive (m : gmap string Value) :
  (0 <? Z.of_nat (size m)) = false <-> m = ∅.
Proof.
  rewrite <- map_size_empty_iff. rewrite Z.ltb_ge. lia.
Qed.

End HttpFacts.

Section HttpMatch.
Import Http.

Variable EqualFold : string -> string -> bool.
Variable Unmarshal : string -> option (gmap string Value).
Variable Sprintf_v : Value -> string.

(** [matchRequest] answers [true] exactly on a full match. *)
Lemma matchRequest_fullMatch (r : Request.t) (stub : HTTPStub.t) :
  fst (matchRequest EqualFold Unmarshal Sprintf_v r stub) = true <->
  fullMatch EqualFold Unmarshal Sprintf_v stub r.
Proof.
  unfold matchRequest, fullMatch, bodyMatches.
  destruct (EqualFold (HTTPStub.Method stub) (Request.Method r)); cbn [negb];
    [|split; [discriminate | intros [H _]; discriminate]].
  destruct (String.eqb_spec (HTTPStub.Path stub) (Request.Path r)) as [Hpath|Hpath]; cbn [negb];
    [|split; [discriminate | intros (_ & H & _); contradiction]].
  destruct (headersMatch r stub) eqn:Hh; cbn [negb].
  2:{ split; [discriminate|]. intros (_ & _ & H & _).
      apply (proj2 (headersMatch_iff r stub)) in H. congruence. }
  pose proof (proj1 (headersMatch_iff r stub) Hh) as Hheaders.
  destruct (String.eqb_spec (HTTPStub.BodyContains stub) EmptyString) as [Hc|Hc]; cbn [negb orb andb].
  - destruct (0 <? Z.of_nat (size (HTTPStub.BodyJSON stub))) eqn:Hj.
    + assert (Hne : HTTPStub.BodyJSON stub <> ∅).
      { intros He. apply (proj2 (size_positive _)) in He. congruence. }
      destruct (Request.Body r) as [bodyStr|].
      * destruct (Unmarshal bodyStr) as [requestJSON|] eqn:Hu.
        -- destruct (fieldsMatch Sprintf_v requestJSON stub) eqn:Hf; cbn [fst].
           ++ split; [intros _|reflexivity]. repeat split; try assumption.
              right. exists bodyStr. repeat split; [congruence|].
              intros _. exists requestJSON. split; [exact Hu|].
              exact (proj1 (fieldsMatch_iff Sprintf_v _ stub) Hf).
           ++ split; [discriminate|]. intros (_ & _ & _ & [[_ He]|(b & Hb & _ & Hjs)]);
                [contradiction|].
              injection Hb as <-. destruct (Hjs Hne) as (j & Hu' & Hall).
              rewrite Hu in Hu'. injection Hu' as <-.
              apply (proj2 (fieldsMatch_iff Sprintf_v _ stub)) in Hall. congruence.
        -- cbn [fst]. split; [discriminate|].
           intros (_ & _ & _ & [[_ He]|(b & Hb & _ & Hjs)]); [contradiction|].
           injection Hb as <-. destruct (Hjs Hne) as (j & Hu' & _). congruence.
      * cbn [fst]. split; [discriminate|].
        intros (_ & _ & _ & [[_ He]|(b & Hb & _)]); [contradiction|discriminate].
    + apply (proj1 (size_positive _)) in Hj. cbn [fst]. split; [intros _|reflexivity].
      repeat split; try assumption. left. split; assumption.
  - destruct (Request.Body r) as [bodyStr|].
    2:{ cbn [fst]. split; [discriminate|].
        intros (_ & _ & _ & [[He _]|(b & Hb & _)]); [contradiction|discriminate]. }
    destruct (Contains bodyStr (HTTPStub.BodyContains stub)) eqn:Hsub; cbn [negb].
    2:{ cbn [fst]. split; [discriminate|].
        intros (_ & _ & _ & [[He _]|(b & Hb & Hs & _)]); [contradiction|].
        injection Hb as <-. rewrite (Hs Hc) in Hsub. discriminate. }
    destruct (0 <? Z.of_nat (size (HTTPStub.BodyJSON stub))) eqn:Hj.
    + assert (Hne : HTTPStub.BodyJSON stub <> ∅).
      { intros He. apply (proj2 (size_positive _)) in He. congruence. }
      destruct (Unmarshal bodyStr) as [requestJSON|] eqn:Hu.
      * destruct (fieldsMatch Sprintf_v requestJSON stub) eqn:Hf; cbn [fst].
        -- split; [intros _|reflexivity]. repeat split; try assumption.
           right. exists bodyStr. repeat split; [intros _; exact Hsub|].
           intros _. exists requestJSON. split; [exact Hu|].
           exact (proj1 (fieldsMatch_iff Sprintf_v _ stub) Hf).
        -- split; [discriminate|]. intros (_ & _ & _ & [[He _]|(b & Hb & _ & Hjs)]);
             [contradiction|].
           injection Hb as <-. destruct (Hjs Hne) as (j & Hu' & Hall).
           rewrite Hu in Hu'. injection Hu' as <-.
           apply (proj2 (fieldsMatch_iff Sprintf_v _ stub)) in Hall. congruence.
      * cbn [fst]. split; [discriminate|].
        intros (_ & _ & _ & [[He _]|(b & Hb & _ & Hjs)]); [contradiction|].
        injection Hb as <-. destruct (Hjs Hne) as (j & Hu' & _). congruence.
    + apply (proj1 (size_positive _)) in Hj. cbn [fst]. split; [intros _|reflexivity].
      repeat split; try assumption. right. exists bodyStr.
      repeat split; [intros _; exact Hsub|]. intros Hne. contradiction.
Qed.

(** C8, as amended.  [ServeHTTP] scans the stubs in declaration order and
    answers for the first stub that fully matches: the methods are equal
    under [strings.EqualFold], the paths are equal, for every header of
    the stub the value the request gives for it (its first value, the
    empty string when the request has none) is the value of the stub, and
    the body conditions of the stub hold.  It replies with the response of
    that stub when the status of the stub lies between 100 and 999; for
    any other status [WriteHeader] panics and nothing is replied.  When no
    stub fully matches it replies 404 with the fixed JSON error body. *)
Theorem ServeHTTP_first_match (stubs : list HTTPStub.t) (r : Request.t) :
  firstMatchWins EqualFold Unmarshal Sprintf_v
    (fullMatch EqualFold Unmarshal Sprintf_v) respond stubs r /\
  (forall stub,
     (100 <= HTTPResponse.Status (HTTPStub.Response stub) <= 999 ->
      respond stub = Replied (replyOf stub)) /\
     (~ 100 <= HTTPResponse.Status (HTTPStub.Response stub) <= 999 ->
      forall reply, respond stub <> Replied reply)).
Proof.
  split.
  - unfold firstMatchWins.
    induction stubs as [|stub rest IH].
    + right. split; [constructor | reflexivity].
    + cbn [ServeHTTP].
      pose proof (matchRequest_snd EqualFold Unmarshal Sprintf_v r stub) as Hsnd.
      pose proof (matchRequest_fullMatch r stub) as Hfst.
      destruct (matchRequest EqualFold Unmarshal Sprintf_v r stub) as [matched r'].
      cbn [fst snd] in Hsnd, Hfst. subst r'.
      destruct matched.
      * left. exists [], stub, rest.
        split; [reflexivity|]. split; [constructor|].
        split; [apply Hfst; reflexivity | reflexivity].
      * assert (Hno : ~ fullMatch EqualFold Unmarshal Sprintf_v stub r).
        { intros Hm. apply Hfst in Hm. discriminate. }
        destruct IH as [(before & s & after & Heq & Hbefore & Hs & Hreply)|[Hall Hreply]].
        -- left. exists (stub :: before), s, after. rewrite Heq.
           split; [reflexivity|]. split; [constructor; assumption|].
           split; [assumption|]. rewrite <- Heq. exact Hreply.
        -- right. split; [constructor; assumption | assumption].
  - intros stub. split.
    + intros Hcode. apply respond_valid. unfold validStatus.
      apply andb_true_intro. split; apply Z.leb_le; lia.
    + intros Hcode. apply respond_invalid. unfold validStatus.
      destruct (100 <=? _) eqn:Hlo; [|reflexivity].
      destruct (_ <=? 999) eqn:Hhi; [|reflexivity].
      apply Z.leb_le in Hlo, Hhi. lia.
Qed.

End HttpMatch.

Section HttpClaims.
Import Http.

Example tokenStub_matches_bareRequest (EqualFold : string -> string -> bool)
    (Unmarshal : string -> option (gmap string Value)) (Sprintf_v : Value -> string) :
  EqualFold "GET" "GET" = true ->
  ServeHTTP EqualFold Unmarshal Sprintf_v [tokenStub] bareRequest =
  Replied (replyOf tokenStub).
Proof.
  intros Hfold. cbn [ServeHTTP]. unfold matchRequest, headersMatch.
  cbn [tokenStub bareRequest HTTPStub.Method HTTPStub.Path HTTPStub.Headers
       HTTPStub.BodyContains HTTPStub.BodyJSON Request.Method Request.Path
       Request.Header Request.Body].
  rewrite Hfold, map_to_list_singleton. reflexivity.
Qed.

Example noStatusStub_panics (EqualFold : string -> string -> bool)
    (Unmarshal : string -> option (gmap string Value)) (Sprintf_v : Value -> string) :
  EqualFold "GET" "GET" = true ->
  ServeHTTP EqualFold Unmarshal Sprintf_v [noStatusStub] bareRequest = Panicked None ∅ 0.
Proof.
  intros Hfold. cbn [ServeHTTP]. unfold matchRequest, headersMatch.
  cbn [noStatusStub bareRequest HTTPStub.Method HTTPStub.Path HTTPStub.Headers
       HTTPStub.BodyContains HTTPStub.BodyJSON Request.Method Request.Path
       Request.Header Request.Body].
  rewrite Hfold, map_to_list_empty. reflexivity.
Qed.

(** C8 as stated fails, whatever the library functions are, as long as
    [EqualFold] takes GET for GET.  A stub asks for the header [X-Token]
    with the empty value and the request carries no header: no stub fully
    matches in the stated sense (the header is not present), so the reply
    should be the 404 one; the server replies with the response of the
    stub.  And a stub that gives no status matches the request: its
    response should be returned; [WriteHeader] panics on the status 0 and
    nothing is. *)
Lemma firstMatch_spec_fails :
  (~ exists (EqualFold : string -> string -> bool)
       (Unmarshal : string -> option (gmap string Value)) (Sprintf_v : Value -> string),
       EqualFold "GET" "GET" = true /\
       firstMatchWins_spec EqualFold Unmarshal Sprintf_v [tokenStub] bareRequest) /\
  (~ exists (EqualFold : string -> string -> bool)
       (Unmarshal : string -> option (gmap string Value)) (Sprintf_v : Value -> string),
       EqualFold "GET" "GET" = true /\
       firstMatchWins_spec EqualFold Unmarshal Sprintf_v [noStatusStub] bareRequest).
Proof.
  split.
  - intros (EqualFold & Unmarshal & Sprintf_v & Hfold & H).
    assert (Hno : ~ fullMatch_spec EqualFold Unmarshal Sprintf_v tokenStub bareRequest).
    { intros (_ & _ & Hh & _).
      destruct (Hh "X-Token" EmptyString) as [others Hl].
      - apply lookup_singleton_eq.
      - cbn [bareRequest Request.Header] in Hl. rewrite lookup_empty in Hl. discriminate. }
    destruct H as [(before & stub & after & Heq & _ & Hm & _)|[_ Hreply]].
    + destruct before as [|s before].
      * injection Heq as <- _. contradiction.
      * injection Heq as _ Heq. destruct before; discriminate.
    + rewrite (tokenStub_matches_bareRequest EqualFold Unmarshal Sprintf_v Hfold) in Hreply.
      apply (f_equal (fun outcome => match outcome with
                                     | Replied reply => replyStatus reply
                                     | Panicked _ _ code => code
                                     end)) in Hreply.
      discriminate.
  - intros (EqualFold & Unmarshal & Sprintf_v & Hfold & H).
    destruct H as [(before & stub & after & _ & _ & _ & Hreply)|[_ Hreply]];
      rewrite (noStatusStub_panics EqualFold Unmarshal Sprintf_v Hfold) in Hreply;
      discriminate.
Qed.

(** C10.  A path is, in one way only, a list of member names joined with
    dots, and [jsonFieldMatches] passes if and only if a value is found at
    these names from the request's object (each name but the last one a
    member that its object holds, the last one a member or, read as the
    null value, a name that its object does not hold) and the [%v]
    rendering of that value is the rendering of the expected value.  So
    values of any two types with one rendering are taken as equal, and a
    path that goes on through a value that is not an object fails,
    whatever is expected. *)
Theorem jsonFieldMatches_rendering (Sprintf_v : Value -> string)
    (data : gmap string Value) (path : string) (expectedValue : Value) :
  exists keys,
    namesOf_spec path keys /\
    (forall keys', namesOf_spec path keys' -> keys' = keys) /\
    (jsonFieldMatches Sprintf_v data path expectedValue = true <->
     exists current,
       valueAt_spec (VMap data) keys current /\
       Sprintf_v current = Sprintf_v expectedValue) /\
    (forall current,
       valueAt_spec (VMap data) keys current ->
       Sprintf_v current = Sprintf_v expectedValue ->
       jsonFieldMatches Sprintf_v data path expectedValue = true) /\
    (forall before key after intermediate,
       keys = (before ++ key :: after)%list ->
       valueAt_spec (VMap data) before intermediate ->
       (forall m, intermediate <> VMap m) ->
       jsonFieldMatches Sprintf_v data path expectedValue = false).
Proof.
  exists (Split path "."%char).
  split; [exact (proj2 (Split_names path _) eq_refl)|].
  split; [intros keys' Hk; exact (proj1 (Split_names path keys') Hk)|].
  assert (Hiff : jsonFieldMatches Sprintf_v data path expectedValue = true <->
    exists current,
      valueAt_spec (VMap data) (Split path "."%char) current /\
      Sprintf_v current = Sprintf_v expectedValue).
  { unfold jsonFieldMatches. split.
    - destruct (walk (VMap data) (Split path ".")) as [current|] eqn:Hw; [|discriminate].
      intros Heq. exists current. split.
      + apply walk_valueAt. exact Hw.
      + apply String.eqb_eq. exact Heq.
    - intros (current & Hf & Heq). apply walk_valueAt in Hf. rewrite Hf.
      apply String.eqb_eq. exact Heq. }
  split; [exact Hiff|]. split.
  - intros current Hf Heq. apply Hiff. exists current. split; assumption.
  - intros before key after intermediate Hsplit Hf Hnot.
    unfold jsonFieldMatches. rewrite Hsplit, walk_app.
    apply walk_valueAt in Hf. rewrite Hf.
    rewrite walk_non_object by exact Hnot. reflexivity.
Qed.

End HttpClaims.

Section HttpExamples.
Import Http.

Variable EqualFold : string -> string -> bool.
Variable Unmarshal : string -> option (gmap string Value).
Variable Sprintf_v : Value -> string.

(** What the walk finds in the example body. *)
Lemma walk_exampleBody :
  walk (VMap exampleBody) (Split "id" "."%char) = Some (VFloat64 1 0) /\
  walk (VMap exampleBody) (Split "user.name" "."%char) = Some (VString "bob") /\
  walk (VMap exampleBody) (Split "missing" "."%char) = Some VNil /\
  walk (VMap exampleBody) (Split "id.x" "."%char) = None /\
  walk (VMap exampleBody) (Split "missing.x" "."%char) = None.
Proof. repeat split; vm_compute; reflexivity. Qed.

(** The number 1 of the body passes for the expected string "1" as soon as
    the two render alike, as they do under [%v]. *)
Example number_one_matches_string_one :
  Sprintf_v (VFloat64 1 0) = Sprintf_v (VString "1") ->
  jsonFieldMatches Sprintf_v exampleBody "id" (VString "1") = true /\
  VFloat64 1 0 <> VString "1".
Proof.
  intros Hsame. split; [|discriminate].
  unfold jsonFieldMatches. rewrite (proj1 walk_exampleBody).
  apply String.eqb_eq. exact Hsame.
Qed.

Example nested_path_matches :
  jsonFieldMatches Sprintf_v exampleBody "user.name" (VString "bob") = true.
Proof.
  unfold jsonFieldMatches. rewrite (proj1 (proj2 walk_exampleBody)).
  apply String.eqb_refl.
Qed.

(** [id] holds a number: a path through it fails, whatever is expected,
    and so does a path below a key that the object does not hold. *)
Example path_through_number_fails (expectedValue : Value) :
  jsonFieldMatches Sprintf_v exampleBody "id.x" expectedValue = false /\
  jsonFieldMatches Sprintf_v exampleBody "missing.x" expectedValue = false.
Proof.
  destruct walk_exampleBody as (_ & _ & _ & Hid & Hmissing).
  unfold jsonFieldMatches. rewrite Hid, Hmissing. split; reflexivity.
Qed.

(** A key that the object does not hold reads as [nil]. *)
Example missing_key_reads_nil :
  jsonFieldMatches Sprintf_v exampleBody "missing" VNil = true.
Proof.
  destruct walk_exampleBody as (_ & _ & Hmissing & _).
  unfold jsonFieldMatches. rewrite Hmissing. apply String.eqb_refl.
Qed.

(** Two stubs match the request; the first one declared answers. *)
Example first_declared_wins :
  EqualFold "GET" "GET" = true ->
  EqualFold "get" "GET" = true ->
  ServeHTTP EqualFold Unmarshal Sprintf_v [plainStub; tokenStub] bareRequest =
    Replied (replyOf plainStub) /\
  ServeHTTP EqualFold Unmarshal Sprintf_v [tokenStub; plainStub] bareRequest =
    Replied (replyOf tokenStub).
Proof.
  intros Hupper Hlower. split.
  - cbn [ServeHTTP]. unfold matchRequest, headersMatch.
    cbn [plainStub bareRequest HTTPStub.Method HTTPStub.Path HTTPStub.Headers
         HTTPStub.BodyContains HTTPStub.BodyJSON Request.Method Request.Path
         Request.Header Request.Body].
    rewrite Hlower, map_to_list_empty. reflexivity.
  - cbn [ServeHTTP]. unfold matchRequest at 1, headersMatch.
    cbn [tokenStub bareRequest HTTPStub.Method HTTPStub.Path HTTPStub.Headers
         HTTPStub.BodyContains HTTPStub.BodyJSON Request.Method Request.Path
         Request.Header Request.Body].
    rewrite Hupper, map_to_list_singleton. reflexivity.
Qed.

Example no_stub_matches :
  ServeHTTP EqualFold Unmarshal Sprintf_v [plainStub]
    {| Request.Method := "GET"; Request.Path := "/pong";
       Request.Header := ∅; Request.Body := Some EmptyString |} = Replied notFound /\
  replyStatus notFound = 404 /\
  String.length (replyBody notFound) = 28%nat.
Proof.
  split; [|split; reflexivity].
  cbn [ServeHTTP]. unfold matchRequest.
  cbn [plainStub HTTPStub.Method HTTPStub.Path Request.Method Request.Path].
  destruct (EqualFold "get" "GET"); reflexivity.
Qed.

End HttpExamples.

(* ===================================================================== *)
(** * Further properties of the TCP stub server *)
(* ===================================================================== *)

Section TcpHandlerMore.
Import Hex Tcp TcpServer.

Lemma closesOf_app (t u : list ConnEvent) :
  closesOf (t ++ u) = (closesOf t + closesOf u)%nat.
Proof.
  induction t as [|e t IH]; [reflexivity|].
  destruct e; cbn [closesOf app]; rewrite IH; reflexivity.
Qed.

Lemma closesOf_sleepFor (delay : Z) : closesOf (sleepFor delay) = O.
Proof. unfold sleepFor. destruct (delay >? 0); reflexivity. Qed.

Lemma writesOf_keepAlive (payload : list byte) (reads : list ReadResult) (w : list byte) :
  In w (writesOf (keepAlive payload reads)) -> w = payload.
Proof.
  induction reads as [|[data|] reads IH]; cbn [keepAlive writesOf In].
  - intros [].
  - intros [H|H]; [congruence | exact (IH H)].
  - intros [].
Qed.

(** The kept connection: either every scripted read was consumed and the
    loop waits for more, or a read error was met and the connection was
    closed, once, as the last call. *)
Lemma keepAlive_ends (payload : list byte) (reads : list ReadResult) :
  (closesOf (keepAlive payload reads) = 0%nat /\
   last (keepAlive payload reads) <> Some EvClose /\
   readsOf (keepAlive payload reads) = List.length reads /\
   ~ In ReadErr reads) \/
  (closesOf (keepAlive payload reads) = 1%nat /\
   last (keepAlive payload reads) = Some EvClose /\
   In ReadErr reads).
Proof.
  induction reads as [|[data|] reads IH].
  - left. cbn. repeat split; [discriminate | tauto].
  - cbn [keepAlive closesOf readsOf List.length].
    destruct IH as [(Hc & Hl & Hr & Hn)|(Hc & Hl & Hi)].
    + left. repeat split.
      * exact Hc.
      * rewrite !last_cons. destruct (last (keepAlive payload reads)) as [e|] eqn:E.
        -- exact Hl.
        -- discriminate.
      * rewrite Hr. reflexivity.
      * intros [H|H]; [discriminate | exact (Hn H)].
    + right. repeat split.
      * exact Hc.
      * rewrite !last_cons, Hl. reflexivity.
      * right. exact Hi.
  - right. cbn. repeat split. left. reflexivity.
Qed.

(** X1.  The outcome of [validateRequest] (verdict and reason) is a
    function of the length of the request: its content is never looked
    at. *)
Theorem validateRequest_length_only (d1 d2 : list byte) (stub : TCPStub) :
  List.length d1 = List.length d2 ->
  validateRequest d1 stub = validateRequest d2 stub.
Proof.
  intros Hlen. unfold validateRequest.
  rewrite !length_EncodeToString, Hlen. reflexivity.
Qed.

Lemma validateRequest_length_only_witness :
  validateRequest [x00; x00] scenarioStub = validateRequest [xde; xad] scenarioStub.
Proof. apply validateRequest_length_only. reflexivity. Defined.


Example oddBounds_reject :
  fst (validateRequest [x01; x02] oddBoundsStub) = false /\
  fst (validateRequest [x01; x02; x03] oddBoundsStub) = false /\
  handleConnection oddBoundsStub (mkConnEnv [ReadOk [x01; x02; x03]] false) =
    [EvRead (ReadOk [x01; x02; x03]); EvClose].
Proof. repeat split. Qed.

(** X3.  Whatever a handler writes on its connection is the response of
    its rule: every [Write] carries [responseData], on the first exchange
    and on the later ones. *)
Theorem handler_writes_only_response (stub : TCPStub) (env : ConnEnv) (w : list byte) :
  In w (writesOf (handleConnection stub env)) ->
  responseData stub = Some w.
Proof.
  unfold handleConnection.
  destruct (incoming env) as [|[data|] rest]; cbn [writesOf In]; try tauto.
  destruct (ValidateRequest stub && negb (fst (validateRequest data stub)));
    cbn [writesOf In]; [tauto|].
  rewrite writesOf_app, writesOf_sleepFor. cbn [app].
  destruct (responseData stub) as [resp|]; cbn [writesOf In]; [|tauto].
  intros [H|H]; [congruence|].
  destruct (writeErr env); cbn [writesOf In] in H; [tauto|].
  destruct (negb (CloseAfter stub)); cbn [writesOf In] in H; [|tauto].
  apply writesOf_keepAlive in H. congruence.
Qed.

Lemma handler_writes_only_response_witness :
  responseData keepOpenStub = Some [x01; x02].
Proof.
  apply (handler_writes_only_response keepOpenStub
           (mkConnEnv [ReadOk [x01; x02]; ReadOk [x09]] false)).
  cbn. right. left. reflexivity.
Defined.

(** X4.  The trace of a handler depends on these fields of its rule only:
    the response, the close-after flag, the delay, the validation flag and
    the two bounds.  The name, the port, the expected prefix and pattern,
    and the two error responses change nothing: a request that fails
    validation gets no byte, also when an error response is configured. *)
Theorem handler_reads_serving_fields_only (s1 s2 : TCPStub) (env : ConnEnv) :
  sameServingFields s1 s2 ->
  handleConnection s1 env = handleConnection s2 env.
Proof.
  intros (Hm & Hh & Hc & Hd & Hv & Hlo & Hhi).
  unfold handleConnection, responseData.
  rewrite Hm, Hh, Hc, Hd, Hv.
  destruct (incoming env) as [|[data|] rest]; [reflexivity| |reflexivity].
  rewrite (validateRequest_bounds_only data s1 s2 Hlo Hhi). reflexivity.
Qed.

Lemma handler_reads_serving_fields_only_witness :
  handleConnection errorResponseStub (mkConnEnv [ReadOk [x01]] false) =
  handleConnection scenarioStub (mkConnEnv [ReadOk [x01]] false).
Proof.
  apply handler_reads_serving_fields_only.
  unfold sameServingFields. cbn. repeat split; reflexivity.
Defined.

Example error_response_never_sent :
  handleConnection errorResponseStub (mkConnEnv [ReadOk [x01]] false) =
  [EvRead (ReadOk [x01]); EvClose].
Proof. reflexivity. Qed.

(** X5.  A handler closes its connection at most once, and the close is
    its last call.  It does close whenever the peer's script holds a read
    error (the peer goes away at some point); a handler that has not
    closed has consumed every scripted read and waits in [Read]. *)
Theorem handler_closes_or_waits (stub : TCPStub) (env : ConnEnv) :
  (closesOf (handleConnection stub env) <= 1)%nat /\
  (closesOf (handleConnection stub env) = 1%nat <-> closed (handleConnection stub env)) /\
  (In ReadErr (incoming env) -> closed (handleConnection stub env)) /\
  (~ closed (handleConnection stub env) ->
   readsOf (handleConnection stub env) = List.length (incoming env)).
Proof.
  assert (Hcases :
    (closesOf (handleConnection stub env) = 1%nat /\ closed (handleConnection stub env)) \/
    (closesOf (handleConnection stub env) = 0%nat /\ ~ closed (handleConnection stub env) /\
     ~ In ReadErr (incoming env) /\
     readsOf (handleConnection stub env) = List.length (incoming env))).
  { unfold closed, handleConnection.
    destruct (incoming env) as [|[data|] rest].
    - right. cbn. repeat split; [discriminate | tauto].
    - destruct (ValidateRequest stub && negb (fst (validateRequest data stub))).
      + left. split; reflexivity.
      + destruct (responseData stub) as [resp|].
        * destruct (writeErr env); [|destruct (negb (CloseAfter stub))].
          -- left. cbn [closesOf]. rewrite closesOf_app, closesOf_sleepFor.
             split; [reflexivity|].
             rewrite last_cons, last_app. reflexivity.
          -- destruct (keepAlive_ends resp rest) as [(Hc & Hl & Hr & Hn)|(Hc & Hl & Hi)].
             ++ right. cbn [closesOf readsOf]. rewrite closesOf_app, closesOf_sleepFor.
                cbn [closesOf]. split; [exact Hc|]. split; [|split].
                ** rewrite last_cons, last_app, last_cons.
                   destruct (last (keepAlive resp rest)) as [e|] eqn:E.
                   --- exact Hl.
                   --- discriminate.
                ** intros [H|H]; [discriminate | exact (Hn H)].
                ** rewrite readsOf_app, readsOf_sleepFor. cbn [readsOf List.length].
                   rewrite Hr. reflexivity.
             ++ left. cbn [closesOf]. rewrite closesOf_app, closesOf_sleepFor.
                cbn [closesOf]. split; [exact Hc|].
                rewrite last_cons, last_app, last_cons, Hl. reflexivity.
          -- left. cbn [closesOf]. rewrite closesOf_app, closesOf_sleepFor.
             split; [reflexivity|].
             rewrite last_cons, last_app. reflexivity.
        * left. cbn [closesOf]. rewrite closesOf_app, closesOf_sleepFor.
          split; [reflexivity|].
          rewrite last_cons, last_app. reflexivity.
    - left. split; reflexivity. }
  destruct Hcases as [[Hc Hl]|(Hc & Hl & Hn & Hr)].
  - rewrite Hc. repeat split; try tauto. lia.
  - rewrite Hc. repeat split; try tauto; try lia; try discriminate.
Qed.

Example handler_waits_for_more :
  handleConnection keepOpenStub (mkConnEnv [ReadOk [x01; x02]; ReadOk [x03]] false) =
  [EvRead (ReadOk [x01; x02]); EvWrite [x01; x02]; EvRead (ReadOk [x03]); EvWrite [x01; x02]] /\
  closesOf (handleConnection keepOpenStub
              (mkConnEnv [ReadOk [x01; x02]; ReadOk [x03]] false)) = 0%nat.
Proof. split; reflexivity. Qed.

Lemma EncodeToString_nonempty (b : list byte) :
  b <> [] -> EncodeToString b <> EmptyString.
Proof. destruct b as [|v b]; [congruence|]. intros _. discriminate. Qed.

(** X6.  A rule whose [ResponseHex] is the hex encoding of a non-empty
    byte sequence [b] responds with exactly [b], whatever its
    [ResponseMessage] is; a rule with an empty [ResponseHex] responds with
    the bytes of its [ResponseMessage]. *)
Theorem responseData_of_hex (stub : TCPStub) (b : list byte) :
  (b <> [] -> ResponseHex stub = EncodeToString b -> responseData stub = Some b) /\
  (ResponseHex stub = EmptyString ->
   responseData stub = Some (list_byte_of_string (ResponseMessage stub))).
Proof.
  unfold responseData. split.
  - intros Hb Hhex. rewrite Hhex.
    destruct (String.eqb_spec (EncodeToString b) EmptyString) as [E|E].
    + exfalso. exact (EncodeToString_nonempty b Hb E).
    + cbn [negb]. rewrite DecodeString_EncodeToString. reflexivity.
  - intros Hhex. rewrite Hhex. reflexivity.
Qed.

Example responseData_hex_wins :
  responseData
    {| Name := "both"; Port := 9006; ResponseMessage := "ignored"; ResponseHex := "CAFE";
       CloseAfter := true; Delay := 0; ValidateRequest := false;
       ExpectedHexPattern := ""; ExpectedPrefix := "";
       MinLength := 0; MaxLength := 0; ErrorResponse := ""; ErrorResponseHex := "" |} =
  Some [xca; xfe].
Proof. reflexivity. Qed.

End TcpHandlerMore.

Section TcpRegistry.
Import Tcp TcpServer.

Lemma foldl_AddStub_lookup (config : list TCPStub) (stubs : gmap Z TCPStub) (port : Z) :
  foldl AddStub stubs config !! port =
  match lastWithPort config port with
  | Some stub => Some stub
  | None => stubs !! port
  end.
Proof.
  revert stubs. induction config as [|stub rest IH]; intros stubs; [reflexivity|].
  cbn [foldl lastWithPort]. rewrite IH.
  destruct (lastWithPort rest port) as [later|]; [reflexivity|].
  unfold AddStub. destruct (Z.eqb_spec (Port stub) port) as [E|E].
  - subst port. apply lookup_insert_eq.
  - apply lookup_insert_ne. exact E.
Qed.

Lemma lastWithPort_Some (config : list TCPStub) (port : Z) (stub : TCPStub) :
  lastWithPort config port = Some stub -> Port stub = port /\ In stub config.
Proof.
  induction config as [|s rest IH]; cbn [lastWithPort]; [discriminate|].
  destruct (lastWithPort rest port) as [later|].
  - intros H. injection H as <-. destruct (IH eq_refl) as [Hp Hi].
    split; [exact Hp | right; exact Hi].
  - destruct (Z.eqb_spec (Port s) port) as [E|E]; [|discriminate].
    intros H. injection H as <-. split; [exact E | left; reflexivity].
Qed.

Lemma lastWithPort_app (before after : list TCPStub) (port : Z) :
  lastWithPort (before ++ after) port =
  match lastWithPort after port with
  | Some stub => Some stub
  | None => lastWithPort before port
  end.
Proof.
  induction before as [|s before IH]; cbn [app lastWithPort].
  - destruct (lastWithPort after port); reflexivity.
  - rewrite IH. destruct (lastWithPort after port); reflexivity.
Qed.

(** X7.  The registry that [main] builds with [AddStub] holds, for every
    port, the last stub of the configuration bound to that port: an
    earlier stub on the same port is silently replaced, a port no stub
    names has no entry, and every entry sits at the port of its stub. *)
Theorem registry_last_stub_wins (config : list TCPStub) (port : Z) :
  loadStubs config !! port = lastWithPort config port /\
  (forall stub, loadStubs config !! port = Some stub ->
     Port stub = port /\ In stub config) /\
  (forall before stub after,
     config = (before ++ stub :: after)%list ->
     Port stub = port ->
     Forall (fun later => Port later <> port) after ->
     loadStubs config !! port = Some stub) /\
  (Forall (fun stub => Port stub <> port) config -> loadStubs config !! port = None).
Proof.
  assert (Hl : loadStubs config !! port = lastWithPort config port).
  { unfold loadStubs, NewTCPStubServer. rewrite foldl_AddStub_lookup, lookup_empty.
    destruct (lastWithPort config port); reflexivity. }
  assert (Hnone : forall l, Forall (fun s => Port s <> port) l -> lastWithPort l port = None).
  { induction 1 as [|s l Hs _ IH]; [reflexivity|].
    cbn [lastWithPort]. rewrite IH.
    destruct (Z.eqb_spec (Port s) port); [contradiction | reflexivity]. }
  split; [exact Hl|]. split; [|split].
  - intros stub H. rewrite Hl in H. apply lastWithPort_Some. exact H.
  - intros before stub after -> Hp Hafter.
    rewrite Hl, lastWithPort_app. cbn [lastWithPort].
    rewrite (Hnone after Hafter).
    destruct (Z.eqb_spec (Port stub) port); [reflexivity | contradiction].
  - intros Hall. rewrite Hl. apply Hnone. exact Hall.
Qed.

Example second_stub_replaces_first :
  loadStubs [firstOn9000; secondOn9000] !! 9000 = Some secondOn9000 /\
  size (loadStubs [firstOn9000; secondOn9000]) = 1%nat.
Proof. split; vm_compute; reflexivity. Qed.

Lemma acceptLoop_app (stub : TCPStub) (before after : list AcceptResult) :
  acceptLoop stub (before ++ after) = (acceptLoop stub before ++ acceptLoop stub after)%list.
Proof.
  induction before as [|[conn|err] before IH]; cbn [app acceptLoop].
  - reflexivity.
  - rewrite IH. reflexivity.
  - exact IH.
Qed.

(** X8.  [Start] runs one listener for each port of the registry and none
    for any other port; the listener of a port serves the last stub
    configured for it.  A listener whose [net.Listen] fails returns the
    error that names its port and handles nothing; otherwise a failed
    [Accept] is skipped, and the connections accepted before and after it
    are each handled by the stub. *)
Theorem listeners_serve_registry (config : list TCPStub)
    (network : Z -> option string * list AcceptResult) (port : Z) :
  Start (loadStubs config) network !! port =
    match lastWithPort config port with
    | Some stub => Some (listenTCP port stub (fst (network port)) (snd (network port)))
    | None => None
    end /\
  (forall stub err accepts,
     listenTCP port stub (Some err) accepts =
     (Some ("failed to listen on port " ++ itoa port ++ ": " ++ err)%string, [])) /\
  (forall stub before err after,
     listenTCP port stub None (before ++ AcceptErr err :: after) =
     (None, (acceptLoop stub before ++ acceptLoop stub after)%list)) /\
  (forall stub conns,
     listenTCP port stub None (map Accepted conns) =
     (None, map (handleConnection stub) conns)).
Proof.
  split; [|split; [|split]].
  - unfold Start. rewrite map_lookup_imap.
    unfold loadStubs, NewTCPStubServer. rewrite foldl_AddStub_lookup, lookup_empty.
    destruct (lastWithPort config port); reflexivity.
  - reflexivity.
  - intros stub before err after. unfold listenTCP.
    rewrite acceptLoop_app. reflexivity.
  - intros stub conns. unfold listenTCP. f_equal.
    induction conns as [|conn conns IH]; [reflexivity|].
    cbn [map acceptLoop]. rewrite IH. reflexivity.
Qed.

Example listener_skips_failed_accept :
  listenTCP 9000 secondOn9000 None
    [Accepted (mkConnEnv [ReadOk [x01]] false);
     AcceptErr "accept tcp: too many open files";
     Accepted (mkConnEnv [ReadErr] false)] =
  (None,
   [[EvRead (ReadOk [x01]); EvWrite (list_byte_of_string "two"); EvClose];
    [EvRead ReadErr; EvClose]]).
Proof. reflexivity. Qed.

End TcpRegistry.

(* ===================================================================== *)
(** * Further properties of the HTTP stub server *)
(* ===================================================================== *)

Section HttpServerMore.
Import Http HttpServer.

Variable EqualFold : string -> string -> bool.
Variable Unmarshal : string -> option (gmap string Value).
Variable Sprintf_v : Value -> string.

Lemma ServeHTTP_app (before after : list HTTPStub.t) (r : Request.t) :
  (Exists (fun s => fullMatch EqualFold Unmarshal Sprintf_v s r) before ->
   ServeHTTP EqualFold Unmarshal Sprintf_v (before ++ after) r =
   ServeHTTP EqualFold Unmarshal Sprintf_v before r) /\
  (Forall (fun s => ~ fullMatch EqualFold Unmarshal Sprintf_v s r) before ->
   ServeHTTP EqualFold Unmarshal Sprintf_v (before ++ after) r =
   ServeHTTP EqualFold Unmarshal Sprintf_v after r).
Proof.
  induction before as [|stub before [IHe IHf]].
  - split; [intros H; inversion H | reflexivity].
  - cbn [app ServeHTTP].
    pose proof (matchRequest_snd EqualFold Unmarshal Sprintf_v r stub) as Hsnd.
    pose proof (matchRequest_fullMatch EqualFold Unmarshal Sprintf_v r stub) as Hfst.
    destruct (matchRequest EqualFold Unmarshal Sprintf_v r stub) as [matched r'].
    cbn [fst snd] in Hsnd, Hfst. subst r'.
    destruct matched.
    + split; [reflexivity|].
      intros H. inversion H as [|s l Hs Hl]; subst.
      exfalso. apply Hs. apply Hfst. reflexivity.
    + split.
      * intros H. inversion H as [s l Hs|s l Hl]; subst.
        -- apply Hfst in Hs. discriminate.
        -- apply IHe. exact Hl.
      * intros H. inversion H as [|s l Hs Hl]; subst. apply IHf. exact Hl.
Qed.

Lemma foldl_AddStub (config stubs : list HTTPStub.t) :
  foldl AddStub stubs config = (stubs ++ config)%list.
Proof.
  revert stubs. induction config as [|stub config IH]; intros stubs.
  - cbn. rewrite app_nil_r. reflexivity.
  - cbn [foldl]. rewrite IH. unfold AddStub. rewrite <- app_assoc. reflexivity.
Qed.

(** X9.  [AddStub] can only add behaviour behind what is there: a request
    that a stub already in the server matches gets the same reply after
    the addition, and a request that none of them matches is answered as
    by a server holding the new stub alone.  The stubs [main] loads are
    the stubs of the configuration, in its order. *)
Theorem AddStub_never_shadows (stubs config : list HTTPStub.t) (stub : HTTPStub.t)
    (r : Request.t) :
  (Exists (fun s => fullMatch EqualFold Unmarshal Sprintf_v s r) stubs ->
   ServeHTTP EqualFold Unmarshal Sprintf_v (AddStub stubs stub) r =
   ServeHTTP EqualFold Unmarshal Sprintf_v stubs r) /\
  (Forall (fun s => ~ fullMatch EqualFold Unmarshal Sprintf_v s r) stubs ->
   ServeHTTP EqualFold Unmarshal Sprintf_v (AddStub stubs stub) r =
   ServeHTTP EqualFold Unmarshal Sprintf_v [stub] r) /\
  loadStubs config = config.
Proof.
  split; [|split].
  - apply ServeHTTP_app.
  - apply ServeHTTP_app.
  - unfold loadStubs, NewHTTPStubServer. apply foldl_AddStub.
Qed.

(** X10.  The body of a request and the body conditions of a stub.  A stub
    with no body condition never reads the body: the verdict is the same
    for any body, readable or not.  A stub with a body condition does not
    match a request whose body cannot be read; one with a substring
    condition does not match a body without the substring; one with JSON
    conditions does not match a body that does not parse. *)
Theorem matchRequest_body (r : Request.t) (stub : HTTPStub.t) :
  (HTTPStub.BodyContains stub = EmptyString -> HTTPStub.BodyJSON stub = ∅ ->
   forall body,
     fst (matchRequest EqualFold Unmarshal Sprintf_v
            {| Request.Method := Request.Method r; Request.Path := Request.Path r;
               Request.Header := Request.Header r; Request.Body := body |} stub) =
     fst (matchRequest EqualFold Unmarshal Sprintf_v r stub)) /\
  (HTTPStub.BodyContains stub <> EmptyString \/ HTTPStub.BodyJSON stub <> ∅ ->
   Request.Body r = None ->
   fst (matchRequest EqualFold Unmarshal Sprintf_v r stub) = false) /\
  (HTTPStub.BodyContains stub <> EmptyString ->
   forall bodyStr, Request.Body r = Some bodyStr ->
     Contains bodyStr (HTTPStub.BodyContains stub) = false ->
     fst (matchRequest EqualFold Unmarshal Sprintf_v r stub) = false) /\
  (HTTPStub.BodyJSON stub <> ∅ ->
   forall bodyStr, Request.Body r = Some bodyStr ->
     Unmarshal bodyStr = None ->
     fst (matchRequest EqualFold Unmarshal Sprintf_v r stub) = false).
Proof.
  assert (Hno : forall P : Prop,
            (fullMatch EqualFold Unmarshal Sprintf_v stub r -> P -> False) -> P ->
            fst (matchRequest EqualFold Unmarshal Sprintf_v r stub) = false).
  { intros P HP p.
    destruct (fst (matchRequest EqualFold Unmarshal Sprintf_v r stub)) eqn:E; [|reflexivity].
    apply matchRequest_fullMatch in E. exfalso. exact (HP E p). }
  split; [|split; [|split]].
  - intros Hc Hj body. unfold matchRequest, headersMatch.
    cbn [Request.Method Request.Path Request.Header Request.Body].
    rewrite Hc, Hj, map_size_empty. cbn [String.eqb negb orb Z.of_nat Z.ltb Z.compare].
    destruct (EqualFold (HTTPStub.Method stub) (Request.Method r)); [|reflexivity].
    destruct (String.eqb (HTTPStub.Path stub) (Request.Path r)); [|reflexivity].
    destruct (forallb _ _); reflexivity.
  - intros Hcond Hbody. apply (Hno True); [|exact I].
    intros (_ & _ & _ & [[Hc Hj]|(b & Hb & _)]) _.
    + destruct Hcond; contradiction.
    + congruence.
  - intros Hc bodyStr Hbody Hsub. apply (Hno True); [|exact I].
    intros (_ & _ & _ & [[Hc' _]|(b & Hb & Hs & _)]) _.
    + contradiction.
    + rewrite Hbody in Hb. injection Hb as <-. rewrite (Hs Hc) in Hsub. discriminate.
  - intros Hj bodyStr Hbody Hu. apply (Hno True); [|exact I].
    intros (_ & _ & _ & [[_ Hj']|(b & Hb & _ & Hjs)]) _.
    + contradiction.
    + rewrite Hbody in Hb. injection Hb as <-.
      destruct (Hjs Hj) as (j & Hu' & _). congruence.
Qed.

Lemma splitFrom_cons (sep : ascii) (s field : string) :
  exists first rest, splitFrom sep s field = first :: rest.
Proof.
  revert field. induction s as [|c s IH]; intros field; cbn [splitFrom].
  - eauto.
  - destruct (Ascii.eqb c sep); [eauto | apply IH].
Qed.

Lemma Contains_snoc (field : string) (c sep : ascii) :
  Contains (field ++ String c EmptyString) (String sep EmptyString) =
  Contains field (String sep EmptyString) || Ascii.eqb c sep.
Proof.
  assert (Hp : forall s, String.prefix EmptyString s = true) by (intros []; reflexivity).
  induction field as [|a field IH].
  - simpl. destruct (ascii_dec sep c) as [E|E].
    + subst. rewrite Ascii.eqb_refl. reflexivity.
    + destruct (Ascii.eqb_spec c sep); [congruence | reflexivity].
  - simpl. rewrite IH. destruct (ascii_dec sep a).
    + rewrite !Hp. reflexivity.
    + reflexivity.
Qed.

(** The first field that [Split] returns holds no separator. *)
Lemma splitFrom_first (sep : ascii) (s field : string) :
  Contains field (String sep EmptyString) = false ->
  exists first rest,
    splitFrom sep s field = first :: rest /\
    Contains first (String sep EmptyString) = false.
Proof.
  revert field. induction s as [|c s IH]; intros field Hf; cbn [splitFrom].
  - eauto.
  - destruct (Ascii.eqb c sep) eqn:E; [eauto|].
    apply IH. rewrite Contains_snoc, Hf, E. reflexivity.
Qed.

(** X11.  A member that the request's object does not hold reads as the
    member set to [null]: for every path and every expected value,
    [jsonFieldMatches] gives the same answer on the object without the
    key and on the object with the key set to [nil]. *)
Theorem missing_member_is_null (data : gmap string Value) (key path : string)
    (expectedValue : Value) :
  jsonFieldMatches Sprintf_v (delete key data) path expectedValue =
  jsonFieldMatches Sprintf_v (<[key := VNil]> data) path expectedValue.
Proof.
  unfold jsonFieldMatches, Split.
  destruct (splitFrom_cons "."%char path EmptyString) as (first & rest & ->).
  cbn [walk]. unfold index.
  destruct (decide (key = first)) as [->|Hne].
  - rewrite lookup_delete_eq, lookup_insert_eq. reflexivity.
  - rewrite lookup_delete_ne, lookup_insert_ne by exact Hne. reflexivity.
Qed.

(** X12.  A member whose name holds a dot cannot be addressed: whatever
    its value, no path reaches it, and [jsonFieldMatches] answers as if
    the object did not hold it. *)
Theorem dotted_member_unreachable (data : gmap string Value) (key path : string)
    (v expectedValue : Value) :
  Contains key "." = true ->
  jsonFieldMatches Sprintf_v (<[key := v]> data) path expectedValue =
  jsonFieldMatches Sprintf_v (delete key data) path expectedValue.
Proof.
  intros Hdot. unfold jsonFieldMatches, Split.
  destruct (splitFrom_first "."%char path EmptyString eq_refl)
    as (first & rest & -> & Hfirst).
  cbn [walk]. unfold index.
  assert (Hne : key <> first) by (intros ->; congruence).
  rewrite lookup_delete_ne, lookup_insert_ne by exact Hne. reflexivity.
Qed.

End HttpServerMore.

Section HttpServerWitnesses.
Import Http HttpServer.

(** The theorem at a member named [user.name], with a rendering that
    tells the strings apart. *)
Lemma dotted_member_unreachable_witness :
  Contains "user.name" "." = true /\
  jsonFieldMatches (fun v => match v with VString s => s | _ => EmptyString end)
    (<["user.name" := VString "bob"]> exampleBody) "user.name" (VString "bob") =
  jsonFieldMatches (fun v => match v with VString s => s | _ => EmptyString end)
    (delete "user.name" exampleBody) "user.name" (VString "bob").
Proof.
  split; [reflexivity|].
  apply (dotted_member_unreachable
           (fun v => match v with VString s => s | _ => EmptyString end)
           exampleBody "user.name" "user.name").
  reflexivity.
Defined.

Example missing_member_matches_null (Sprintf_v : Value -> string) :
  jsonFieldMatches Sprintf_v exampleBody "deleted_at" VNil = true /\
  jsonFieldMatches Sprintf_v (<["deleted_at" := VNil]> exampleBody)
    "deleted_at" VNil = true.
Proof.
  unfold jsonFieldMatches.
  assert (H1 : walk (VMap exampleBody) (Split "deleted_at" "."%char) = Some VNil)
    by (vm_compute; reflexivity).
  assert (H2 : walk (VMap (<["deleted_at" := VNil]> exampleBody))
                 (Split "deleted_at" "."%char) = Some VNil)
    by (vm_compute; reflexivity).
  rewrite H1, H2. split; apply String.eqb_refl.
Qed.

End HttpServerWitnesses.

Section ConfigAndSetup.
Import Http HttpServer.

Lemma substring_all (s : string) : String.substring 0 (String.length s) s = s.
Proof. induction s as [|c s IH]; [reflexivity|]. cbn. rewrite IH. reflexivity. Qed.

Lemma substring_skip (stem s : string) (n : nat) :
  String.substring (String.length stem) n (stem ++ s) = String.substring 0 n s.
Proof. induction stem as [|c stem IH]; [reflexivity|]. cbn. exact IH. Qed.

Lemma substring_split (s : string) (n : nat) :
  (n <= String.length s)%nat ->
  s = (String.substring 0 n s ++ String.substring n (String.length s - n) s)%string.
Proof.
  revert n. induction s as [|c s IH]; intros n Hn.
  - cbn in Hn. assert (n = O) by lia. subst n. reflexivity.
  - destruct n as [|n].
    + cbn [String.substring String.length Nat.sub].
      rewrite substring_all. reflexivity.
    + cbn [String.length] in Hn.
      cbn [String.substring String.length Nat.sub].
      change (String c s = String c (String.substring 0 n s ++
                String.substring n (String.length s - n) s)%string).
      f_equal. apply IH. lia.
Qed.

Lemma length_append (s t : string) :
  String.length (s ++ t) = (String.length s + String.length t)%nat.
Proof. induction s as [|c s IH]; [reflexivity|]. simpl. rewrite IH. reflexivity. Qed.

(** [HasSuffix] holds exactly of the strings that end with the suffix. *)
Lemma HasSuffix_iff (s suffix : string) :
  HasSuffix s suffix = true <-> exists stem, s = (stem ++ suffix)%string.
Proof.
  unfold HasSuffix. split.
  - intros H. apply andb_prop in H. destruct H as [Hlen Heq].
    apply Nat.leb_le in Hlen. apply String.eqb_eq in Heq.
    exists (String.substring 0 (String.length s - String.length suffix) s).
    transitivity
      (String.substring 0 (String.length s - String.length suffix) s ++
       String.substring (String.length s - String.length suffix)
         (String.length s - (String.length s - String.length suffix)) s)%string.
    + apply substring_split. lia.
    + f_equal.
      replace (String.length s - (String.length s - String.length suffix))%nat
        with (String.length suffix) by lia.
      exact Heq.
  - intros [stem ->]. rewrite length_append.
    replace (String.length stem + String.length suffix - String.length suffix)%nat
      with (String.length stem) by lia.
    rewrite substring_skip, substring_all, String.eqb_refl.
    apply andb_true_intro. split; [apply Nat.leb_le; lia | reflexivity].
Qed.

Variable ReadFile : string -> result string.
Variable yamlUnmarshal : string -> result StubConfig.
Variable jsonUnmarshal : string -> result StubConfig.

(** X13.  [LoadConfig] picks the parser by the end of the file name alone:
    the YAML parser for a name that ends with .yaml or .yml (the JSON
    parser is not consulted), the JSON parser for every other name (the
    YAML parser is not consulted).  A file that cannot be read reaches no
    parser; a configuration that is returned is the one the file's bytes
    parse to. *)
Theorem LoadConfig_parser_by_suffix (filename : string) :
  ((exists stem, filename = (stem ++ ".yaml")%string \/ filename = (stem ++ ".yml")%string) ->
   forall otherJSON,
     LoadConfig ReadFile yamlUnmarshal jsonUnmarshal filename =
     LoadConfig ReadFile yamlUnmarshal otherJSON filename) /\
  (~ (exists stem, filename = (stem ++ ".yaml")%string \/ filename = (stem ++ ".yml")%string) ->
   forall otherYAML,
     LoadConfig ReadFile yamlUnmarshal jsonUnmarshal filename =
     LoadConfig ReadFile otherYAML jsonUnmarshal filename) /\
  (forall err, ReadFile filename = Err err ->
     LoadConfig ReadFile yamlUnmarshal jsonUnmarshal filename =
     Err ("failed to read config file: " ++ err)%string) /\
  (forall config,
     LoadConfig ReadFile yamlUnmarshal jsonUnmarshal filename = Ok config ->
     exists data, ReadFile filename = Ok data /\
       (yamlUnmarshal data = Ok config \/ jsonUnmarshal data = Ok config)).
Proof.
  assert (Hsuffix :
    HasSuffix filename ".yaml" || HasSuffix filename ".yml" = true <->
    exists stem, filename = (stem ++ ".yaml")%string \/ filename = (stem ++ ".yml")%string).
  { rewrite orb_true_iff, !HasSuffix_iff. split.
    - intros [[stem H]|[stem H]]; exists stem; tauto.
    - intros [stem [H|H]]; [left | right]; exists stem; exact H. }
  unfold LoadConfig. split; [|split; [|split]].
  - intros H otherJSON. apply Hsuffix in H. rewrite H. reflexivity.
  - intros H otherYAML.
    destruct (HasSuffix filename ".yaml" || HasSuffix filename ".yml") eqn:E.
    + exfalso. apply H, Hsuffix. reflexivity.
    + reflexivity.
  - intros err ->. reflexivity.
  - intros config H. destruct (ReadFile filename) as [data|err]; [|discriminate].
    exists data. split; [reflexivity|].
    destruct (HasSuffix filename ".yaml" || HasSuffix filename ".yml").
    + left. destruct (yamlUnmarshal data); [congruence | discriminate].
    + right. destruct (jsonUnmarshal data); [congruence | discriminate].
Qed.

Variable EqualFold : string -> string -> bool.
Variable Unmarshal : string -> option (gmap string Value).
Variable Sprintf_v : Value -> string.

(** X14.  Started without a configuration file, the server holds the one
    health-check stub and no TCP stub: it answers status 200 to every
    request for the path /health whose method is GET in any case, whatever
    its headers and body, and 404 with the fixed body to every other
    request. *)
Theorem setup_without_config (r : Request.t) :
  setup ReadFile yamlUnmarshal jsonUnmarshal EmptyString =
    Ok ([healthStub], TcpServer.NewTCPStubServer) /\
  ServeHTTP EqualFold Unmarshal Sprintf_v [healthStub] r =
    (if EqualFold "GET" (Request.Method r) && String.eqb "/health" (Request.Path r)
     then Replied (replyOf healthStub) else Replied notFound) /\
  replyStatus (replyOf healthStub) = 200 /\
  replyStatus notFound = 404.
Proof.
  split; [reflexivity|]. split; [|split; reflexivity].
  cbn [ServeHTTP]. unfold matchRequest, headersMatch.
  cbn [healthStub HTTPStub.Method HTTPStub.Path HTTPStub.Headers
       HTTPStub.BodyContains HTTPStub.BodyJSON].
  rewrite map_to_list_empty, map_size_empty.
  destruct (EqualFold "GET" (Request.Method r)); [|reflexivity].
  destruct (String.eqb "/health" (Request.Path r)); reflexivity.
Qed.


End ConfigAndSetup.

Section SetupWitness.
Import Http HttpServer.


Example setup_reads_yaml_file :
  setup (fun _ => Ok "tcp_stubs: ...")
    (fun _ => Ok (mkStubConfig [healthStub; tokenStub]
                    [TcpServer.firstOn9000; TcpServer.secondOn9000]))
    (fun _ => Err "invalid character 't'") "stubs.yaml" =
  Ok ([healthStub; tokenStub],
      TcpServer.loadStubs [TcpServer.firstOn9000; TcpServer.secondOn9000]).
Proof. reflexivity. Qed.

(** The suffix is compared as written: an upper-case one selects the JSON
    parser. *)
Example upper_case_suffix_is_json :
  HasSuffix "stubs.YAML" ".yaml" || HasSuffix "stubs.YAML" ".yml" = false /\
  HasSuffix "stubs.yml" ".yaml" || HasSuffix "stubs.yml" ".yml" = true /\
  HasSuffix "yml" ".yml" = false.
Proof. repeat split. Qed.

End SetupWitness.

(* ===================================================================== *)
(** * Further properties of the relay *)
(* ===================================================================== *)

Section BridgeLoopsMore.
Import Hex Bridge BridgeLoops.

Lemma errSends_app (t u : list BridgeEvent) :
  errSends (t ++ u) = (errSends t + errSends u)%nat.
Proof.
  induction t as [|e t IH]; [reflexivity|].
  destruct e; cbn [errSends app]; rewrite IH; reflexivity.
Qed.

Lemma decodeFrame_encoded (data : list byte) :
  decodeFrame (list_byte_of_string (EncodeToString data)) = data.
Proof.
  unfold decodeFrame.
  rewrite string_of_list_byte_of_string, DecodeString_EncodeToString. reflexivity.
Qed.

(** X16.  The direction "TCP -> WebSocket", when its WebSocket writes
    succeed: the text frames sent are the hex encodings of the chunks read
    before the first read error, one frame per chunk and in their order;
    timeouts leave no trace.  Decoding the frames and putting the results
    end to end gives the bytes of the stream back, wherever the reads cut
    it; nothing is ever written to the TCP leg. *)
Theorem tcpToWs_frames (wsWriteErr : nat -> option string) (k : nat) (reads : list TcpRead) :
  (forall j, wsWriteErr j = None) ->
  textFramesOf (tcpToWs wsWriteErr k reads) =
    map (fun data => list_byte_of_string (EncodeToString data)) (dataChunks reads) /\
  concat (map decodeFrame (textFramesOf (tcpToWs wsWriteErr k reads))) =
    concat (dataChunks reads) /\
  tcpWritesOf (tcpToWs wsWriteErr k reads) = [].
Proof.
  intros Hok.
  assert (Hframes : forall k,
    textFramesOf (tcpToWs wsWriteErr k reads) =
      map (fun data => list_byte_of_string (EncodeToString data)) (dataChunks reads) /\
    tcpWritesOf (tcpToWs wsWriteErr k reads) = []).
  { induction reads as [|[data| |err] reads IH]; intros j; cbn [tcpToWs dataChunks map].
    - split; reflexivity.
    - rewrite Hok. destruct (IH (S j)) as [Hf Hw].
      cbn [textFramesOf tcpWritesOf]. rewrite Hf, Hw. split; reflexivity.
    - apply IH.
    - split; reflexivity. }
  destruct (Hframes k) as [Hf Hw].
  split; [exact Hf|]. split; [|exact Hw].
  rewrite Hf, map_map.
  assert (Hid : forall chunks : list (list byte),
            map (fun data => decodeFrame (list_byte_of_string (EncodeToString data))) chunks
            = chunks).
  { induction chunks as [|data chunks IH]; [reflexivity|].
    cbn [map]. rewrite decodeFrame_encoded, IH. reflexivity. }
  rewrite Hid. reflexivity.
Qed.

Lemma tcpToWs_frames_witness :
  textFramesOf (tcpToWs (fun _ => None) 0
      [TcpData [x01; x02]; TcpTimeout; TcpData [x03]; TcpReadErr "EOF"; TcpData [x04]]) =
    map (fun data => list_byte_of_string (EncodeToString data))
      (dataChunks [TcpData [x01; x02]; TcpTimeout; TcpData [x03]; TcpReadErr "EOF";
                   TcpData [x04]]) /\
  concat (map decodeFrame (textFramesOf (tcpToWs (fun _ => None) 0
      [TcpData [x01; x02]; TcpTimeout; TcpData [x03]; TcpReadErr "EOF"; TcpData [x04]]))) =
    concat (dataChunks [TcpData [x01; x02]; TcpTimeout; TcpData [x03]; TcpReadErr "EOF";
                        TcpData [x04]]) /\
  tcpWritesOf (tcpToWs (fun _ => None) 0
      [TcpData [x01; x02]; TcpTimeout; TcpData [x03]; TcpReadErr "EOF"; TcpData [x04]]) = [].
Proof.
  apply tcpToWs_frames. intros j. reflexivity.
Defined.

Example tcpToWs_stream :
  tcpToWs (fun _ => None) 0
    [TcpData [x01; x02]; TcpTimeout; TcpData [x03]; TcpReadErr "EOF"; TcpData [x04]] =
  [WsWriteMessage TextMessage (list_byte_of_string "0102");
   WsWriteMessage TextMessage (list_byte_of_string "03");
   ErrChan "TCP read error: EOF"].
Proof. reflexivity. Qed.

(** X17.  The direction "WebSocket -> TCP", when its TCP writes succeed:
    over any sequence of data messages, the bytes written to the TCP leg
    are those of the messages that can be forwarded (a binary message as
    it is, a text message that decodes as its decoded bytes), in their
    order; the text frames sent back are the reports of the messages that
    do not decode, in their order; and nothing is put on the error
    channel. *)
Theorem wsToTcp_relays (tcpWriteErr : nat -> option string) (k : nat)
    (frames : list (Z * list byte)) :
  (forall j, tcpWriteErr j = None) ->
  tcpWritesOf (wsToTcp tcpWriteErr k (map (fun f => WsMessage (fst f) (snd f)) frames)) =
    omap forwarded frames /\
  textFramesOf (wsToTcp tcpWriteErr k (map (fun f => WsMessage (fst f) (snd f)) frames)) =
    omap reported frames /\
  errSends (wsToTcp tcpWriteErr k (map (fun f => WsMessage (fst f) (snd f)) frames)) = 0%nat.
Proof.
  intros Hok. revert k.
  induction frames as [|[messageType message] frames IH]; intros k.
  - repeat split.
  - cbn [map fst snd]. unfold forwarded, reported.
    change (omap ?f ((messageType, message) :: frames))
      with (match f (messageType, message) with
            | Some y => y :: omap f frames
            | None => omap f frames
            end).
    cbn [fst snd].
    destruct (Z.eqb_spec messageType BinaryMessage) as [->|Hne].
    + rewrite wsToTcp_binary. unfold afterTcpWrite. rewrite Hok.
      destruct (IH (S k)) as (Hw & Hf & He).
      cbn [tcpWritesOf textFramesOf errSends]. rewrite Hw, Hf, He. repeat split.
    + rewrite wsToTcp_text by exact Hne.
      destruct (DecodeString (string_of_list_byte message)) as [decoded [err|]].
      * destruct (IH k) as (Hw & Hf & He). unfold invalidHexFrame.
        cbn [tcpWritesOf textFramesOf errSends]. rewrite Hw, Hf, He. repeat split.
      * unfold afterTcpWrite. rewrite Hok.
        destruct (IH (S k)) as (Hw & Hf & He).
        cbn [tcpWritesOf textFramesOf errSends]. rewrite Hw, Hf, He. repeat split.
Qed.

Lemma wsToTcp_relays_witness :
  tcpWritesOf (wsToTcp (fun _ => None) 0
      (map (fun f => WsMessage (fst f) (snd f))
         [(BinaryMessage, [x01]); (TextMessage, list_byte_of_string "0g");
          (TextMessage, list_byte_of_string "F00D")])) =
    omap forwarded
      [(BinaryMessage, [x01]); (TextMessage, list_byte_of_string "0g");
       (TextMessage, list_byte_of_string "F00D")] /\
  textFramesOf (wsToTcp (fun _ => None) 0
      (map (fun f => WsMessage (fst f) (snd f))
         [(BinaryMessage, [x01]); (TextMessage, list_byte_of_string "0g");
          (TextMessage, list_byte_of_string "F00D")])) =
    omap reported
      [(BinaryMessage, [x01]); (TextMessage, list_byte_of_string "0g");
       (TextMessage, list_byte_of_string "F00D")] /\
  errSends (wsToTcp (fun _ => None) 0
      (map (fun f => WsMessage (fst f) (snd f))
         [(BinaryMessage, [x01]); (TextMessage, list_byte_of_string "0g");
          (TextMessage, list_byte_of_string "F00D")])) = 0%nat.
Proof.
  apply wsToTcp_relays. intros j. reflexivity.
Defined.

Example wsToTcp_mixed_frames :
  omap forwarded
    [(BinaryMessage, [x01]); (TextMessage, list_byte_of_string "0g");
     (TextMessage, list_byte_of_string "F00D")] = [[x01]; [xf0; x0d]] /\
  omap reported
    [(BinaryMessage, [x01]); (TextMessage, list_byte_of_string "0g");
     (TextMessage, list_byte_of_string "F00D")] =
  [list_byte_of_string "ERROR: Invalid hex: encoding/hex: invalid byte: U+0067 'g'"].
Proof. split; reflexivity. Qed.

Lemma wsToTcp_error_last (tcpWriteErr : nat -> option string) (k : nat)
    (frames : list WsRead) :
  (errSends (wsToTcp tcpWriteErr k frames) <= 1)%nat /\
  (forall err, In (ErrChan err) (wsToTcp tcpWriteErr k frames) ->
     last (wsToTcp tcpWriteErr k frames) = Some (ErrChan err)).
Proof.
  revert k. induction frames as [|[messageType message|e] frames IH]; intros k.
  - split; [cbn; lia | intros err []].
  - assert (Hsend : forall data,
      (errSends (TcpWrite data :: afterTcpWrite tcpWriteErr k frames) <= 1)%nat /\
      (forall err, In (ErrChan err) (TcpWrite data :: afterTcpWrite tcpWriteErr k frames) ->
         last (TcpWrite data :: afterTcpWrite tcpWriteErr k frames) = Some (ErrChan err))).
    { intros data. unfold afterTcpWrite. destruct (tcpWriteErr k) as [e|].
      - split; [cbn; lia|]. intros err [H|[H|[]]]; [discriminate|].
        rewrite H. reflexivity.
      - destruct (IH (S k)) as [He Hl]. split; [exact He|].
        intros err [H|H]; [discriminate|].
        rewrite last_cons, (Hl err H). reflexivity. }
    destruct (Z.eqb_spec messageType BinaryMessage) as [->|Hne].
    + rewrite wsToTcp_binary. apply Hsend.
    + rewrite wsToTcp_text by exact Hne.
      destruct (DecodeString (string_of_list_byte message)) as [decoded [e|]].
      * destruct (IH k) as [He Hl]. unfold invalidHexFrame. split; [exact He|].
        intros err [H|H]; [discriminate|].
        rewrite last_cons, (Hl err H). reflexivity.
      * apply Hsend.
  - cbn [wsToTcp]. split; [cbn; lia|].
    intros err [H|[]]. rewrite H. reflexivity.
Qed.

Lemma tcpToWs_error_last (wsWriteErr : nat -> option string) (k : nat)
    (reads : list TcpRead) :
  (errSends (tcpToWs wsWriteErr k reads) <= 1)%nat /\
  (forall err, In (ErrChan err) (tcpToWs wsWriteErr k reads) ->
     last (tcpToWs wsWriteErr k reads) = Some (ErrChan err)).
Proof.
  revert k. induction reads as [|[data| |e] reads IH]; intros k; cbn [tcpToWs].
  - split; [cbn; lia | intros err []].
  - destruct (wsWriteErr k) as [e|].
    + split; [cbn; lia|]. intros err [H|[H|[]]]; [discriminate|].
      rewrite H. reflexivity.
    + destruct (IH (S k)) as [He Hl]. split; [exact He|].
      intros err [H|H]; [discriminate|].
      rewrite last_cons, (Hl err H). reflexivity.
  - apply IH.
  - split; [cbn; lia|]. intros err [H|[]]. rewrite H. reflexivity.
Qed.

(** X18.  Each of the two goroutines puts at most one error on the error
    channel, and that send is the last thing it does; a session therefore
    never holds more errors than the channel's capacity of 2, and a send
    on it never blocks. *)
Theorem error_channel_never_fills (env : BridgeEnv) :
  (errSends (eventsOf (handleWebSocket env)) <= errChanCapacity)%nat /\
  (forall tcpWriteErr k frames,
     (errSends (wsToTcp tcpWriteErr k frames) <= 1)%nat /\
     forall err, In (ErrChan err) (wsToTcp tcpWriteErr k frames) ->
       last (wsToTcp tcpWriteErr k frames) = Some (ErrChan err)) /\
  (forall wsWriteErr k reads,
     (errSends (tcpToWs wsWriteErr k reads) <= 1)%nat /\
     forall err, In (ErrChan err) (tcpToWs wsWriteErr k reads) ->
       last (tcpToWs wsWriteErr k reads) = Some (ErrChan err)).
Proof.
  split; [|split].
  - unfold handleWebSocket, errChanCapacity.
    destruct (upgradeErr env); [cbn; lia|].
    destruct (dialErr env); [cbn; lia|].
    cbn [eventsOf]. rewrite errSends_app.
    pose proof (proj1 (wsToTcp_error_last (tcpWriteErr env) 0 (wsFrames env))).
    pose proof (proj1 (tcpToWs_error_last (wsWriteErr env) 0 (tcpReads env))).
    lia.
  - intros. apply wsToTcp_error_last.
  - intros. apply tcpToWs_error_last.
Qed.

Lemma length_substring_prefix (s : string) (n : nat) :
  (n <= String.length s)%nat -> String.length (String.substring 0 n s) = n.
Proof.
  revert n. induction s as [|c s IH]; intros [|n] Hn; cbn in *; try reflexivity; try lia.
  rewrite IH by lia. reflexivity.
Qed.

Lemma substring_prefix_twice (s : string) (n : nat) :
  (n <= String.length s)%nat ->
  String.substring 0 n s = String.substring 0 n (String.substring 0 n s).
Proof.
  revert n. induction s as [|c s IH]; intros [|n] Hn; cbn in *; try reflexivity; try lia.
  rewrite <- IH by lia. reflexivity.
Qed.

(** X19.  [min] returns the smaller of its arguments, and the slice that
    the relay logs, [hexStr[:min(40, len(hexStr))]], is always within the
    string: it is the first 40 bytes of the hex text, or the whole text
    when that is shorter, and never a slice out of range (a panic). *)
Theorem logPrefix_in_range (hexStr : string) (a b : Z) :
  (min a b <= a /\ min a b <= b /\ (min a b = a \/ min a b = b)) /\
  exists p,
    logPrefix hexStr = Some p /\
    p = String.substring 0 (Nat.min 40 (String.length hexStr)) hexStr /\
    String.length p = Nat.min 40 (String.length hexStr) /\
    String.prefix p hexStr = true /\
    ((String.length hexStr <= 40)%nat -> p = hexStr).
Proof.
  split.
  - unfold min. destruct (Z.ltb_spec a b); lia.
  - unfold logPrefix, sliceTo, min.
    assert (Hn : Z.to_nat (if 40 <? Z.of_nat (String.length hexStr) then 40
                           else Z.of_nat (String.length hexStr)) =
                 Nat.min 40 (String.length hexStr)).
    { destruct (Z.ltb_spec 40 (Z.of_nat (String.length hexStr))); lia. }
    assert (Hr : ((if 40 <? Z.of_nat (String.length hexStr) then 40
                   else Z.of_nat (String.length hexStr)) <? 0)
                 || (Z.of_nat (String.length hexStr) <?
                     (if 40 <? Z.of_nat (String.length hexStr) then 40
                      else Z.of_nat (String.length hexStr))) = false).
    { destruct (Z.ltb_spec 40 (Z.of_nat (String.length hexStr)));
        apply orb_false_intro; apply Z.ltb_ge; lia. }
    rewrite Hr, Hn. eexists. split; [reflexivity|]. split; [reflexivity|].
    assert (Hle : (Nat.min 40 (String.length hexStr) <= String.length hexStr)%nat) by lia.
    split; [apply length_substring_prefix; exact Hle|]. split.
    + apply String.prefix_correct.
      rewrite length_substring_prefix by exact Hle.
      reflexivity.
    + intros Hshort. rewrite Nat.min_r by exact Hshort. apply substring_all.
Qed.

Example logPrefix_short_and_long :
  logPrefix "f00d" = Some "f00d" /\
  logPrefix EmptyString = Some EmptyString /\
  sliceTo "f00d" 40 = None.
Proof. repeat split. Qed.

End BridgeLoopsMore.
